(** * Tile slope and height accessors of OpenTTD (tile_map.cpp, macros.h)

    A shallow embedding of the corner-height classifier, of the tile
    accessors built on it and of the bit-window macros, followed by the
    properties proved about them.

    C integers are mathematical integers ([Z]) and every conversion or
    wrap-around of the 32-bit types [int] and [uint] is written out. *)

From Stdlib Require Import ZArith Lia List Bool Permutation.
Import ListNotations.
Local Open Scope Z_scope.

(** ** The 32-bit integer types *)

Module CTypes.

Definition UINT_MAX : Z := 4294967295.
Definition INT_MAX : Z := 2147483647.
Definition INT_MIN : Z := -2147483648.

Definition is_int (z : Z) : Prop := INT_MIN <= z <= INT_MAX.
Definition is_uint (z : Z) : Prop := 0 <= z <= UINT_MAX.

(** Conversion to [uint]: reduction modulo 2^32. *)
Definition to_uint (z : Z) : Z := z mod 4294967296.

(** Conversion to [int]: the two's complement reading of the low 32 bits. *)
Definition to_int (z : Z) : Z := (z + 2147483648) mod 4294967296 - 2147483648.

Definition int_add (a b : Z) : Z := to_int (a + b).
Definition int_sub (a b : Z) : Z := to_int (a - b).
Definition int_mul (a b : Z) : Z := to_int (a * b).
Definition uint_add (a b : Z) : Z := to_uint (a + b).
Definition uint_sub (a b : Z) : Z := to_uint (a - b).
Definition uint_not (a : Z) : Z := to_uint (Z.lnot a).

(** [a << k] on [uint]. The shift has no defined result when the count
    is negative or reaches the width of the type. *)
Definition uint_shl (a k : Z) : option Z :=
  if (0 <=? k) && (k <? 32) then Some (to_uint (Z.shiftl a k)) else None.

(** [a >> k] on [uint], with the same restriction on the count. *)
Definition uint_shr (a k : Z) : option Z :=
  if (0 <=? k) && (k <? 32) then Some (Z.shiftr (to_uint a) k) else None.

(** The narrower and wider integer types used by macros.h. *)
Definition to_uint8 (z : Z) : Z := z mod 256.
Definition to_uint16 (z : Z) : Z := z mod 65536.
Definition to_uint64 (z : Z) : Z := z mod 18446744073709551616.
Definition to_int64 (z : Z) : Z :=
  (z + 9223372036854775808) mod 18446744073709551616 - 9223372036854775808.

Definition is_uint8 (z : Z) : Prop := 0 <= z <= 255.
Definition is_uint16 (z : Z) : Prop := 0 <= z <= 65535.

Definition uint_mul (a b : Z) : Z := to_uint (a * b).

End CTypes.
Import CTypes.

(** ** macros.h *)

Module Macros.

(** [static inline int min(const int a, const int b)] *)
Definition min (a b : Z) : Z := if a <=? b then a else b.

(** [template<typename T> T max(const T a, const T b)] *)
Definition max (a b : Z) : Z := if a >=? b then a else b.

Definition obind {A B : Type} (c : option A) (k : A -> option B) : option B :=
  match c with
  | Some a => k a
  | None => None
  end.

Notation "'let?' x ':=' c 'in' k" := (obind c (fun x => k))
  (at level 10, x name, c at level 100, k at level 200).

(** The window mask [((1U << n) - 1) << s] shared by [SB] and [AB]. *)
Definition window_mask (s n : Z) : option Z :=
  let? one_n := uint_shl 1 n in
  uint_shl (uint_sub one_n 1) s.

(** [#define GB(x, s, n) (((x) >> (s)) & ((1U << (n)) - 1))] *)
Definition GB (x s n : Z) : option Z :=
  let? xs := uint_shr x s in
  let? one_n := uint_shl 1 n in
  Some (Z.land xs (uint_sub one_n 1)).

(** [#define SB(x, s, n, d)
      ((x) = ((x) & ~(((1U << (n)) - 1) << (s))) | ((d) << (s)))]
    The result is the new value of the [uint] variable [x]. *)
Definition SB (x s n d : Z) : option Z :=
  let? mask := window_mask s n in
  let? ds := uint_shl d s in
  Some (Z.lor (Z.land (to_uint x) (uint_not mask)) ds).

(** [#define AB(x, s, n, i)
      ((x) = ((x) & ~(((1U << (n)) - 1) << (s)))
           | (((x) + ((i) << (s))) & (((1U << (n)) - 1) << (s))))]
    The result is the new value of the [uint] variable [x]. *)
Definition AB (x s n i : Z) : option Z :=
  let? mask := window_mask s n in
  let? i_s := uint_shl i s in
  Some (Z.lor (Z.land (to_uint x) (uint_not mask))
              (Z.land (uint_add (to_uint x) i_s) mask)).

(** [template<typename T> T min(const T a, const T b)], the overload
    chosen for operands that are not both [int]. *)
Definition min_T (a b : Z) : Z := if a <? b then a else b.

(** [static inline uint minu(const uint a, const uint b)] *)
Definition minu (a b : Z) : Z := if a <=? b then a else b.

(** [static inline int clamp(const int a, const int min, const int max)] *)
Definition clamp (a min max : Z) : Z :=
  if a <=? min then min else
  if a >=? max then max else
  a.

(** [static inline uint clampu(const uint a, const uint min, const uint max)] *)
Definition clampu (a min max : Z) : Z :=
  if a <=? min then min else
  if a >=? max then max else
  a.

(** [static inline int32 ClampToI32(const int64 a)]; the literal
    [0x80000000] is an unsigned 2147483648, converted to [int32] by the
    cast and by the return. *)
Definition ClampToI32 (a : Z) : Z :=
  if a <=? to_int 2147483648 then to_int 2147483648 else
  if a >=? to_int 2147483647 then to_int 2147483647 else
  to_int a.

(** [static inline int32 BIGMULSS(const int32 a, const int32 b, const uint8 shift)]:
    [(int32)((int64)a * (int64)b >> shift)]. The shift of the 64-bit
    product is arithmetic and has no defined result from a count of 64 on. *)
Definition BIGMULSS (a b shift : Z) : option Z :=
  if (0 <=? shift) && (shift <? 64)
  then Some (to_int (Z.shiftr (to_int64 (a * b)) shift))
  else None.

(** [static inline uint32 BIGMULUS(const uint32 a, const uint32 b, const uint8 shift)]:
    [(uint32)((uint64)a * (uint64)b >> shift)]. *)
Definition BIGMULUS (a b shift : Z) : option Z :=
  if (0 <=? shift) && (shift <? 64)
  then Some (to_uint (Z.shiftr (to_uint64 (a * b)) shift))
  else None.

(** [#define IS_INSIDE_1D(x, base, size) ( (uint)((x) - (base)) < ((uint)(size)) )]
    on [int] operands. *)
Definition IS_INSIDE_1D (x base size : Z) : bool :=
  to_uint (int_sub x base) <? to_uint size.

(** The test that [IS_INSIDE_1D] replaces, kept in the header as a comment:
    [((x) >= (base) && (x) < (base) + (size))]. *)
Definition IS_INSIDE_1D_plain (x base size : Z) : bool :=
  (x >=? base) && (x <? int_add base size).

(** [#define IS_BYTE_INSIDE(a, min, max) ((byte)((a) - (min)) < (byte)((max) - (min)))] *)
Definition IS_BYTE_INSIDE (a min max : Z) : bool :=
  to_uint8 (int_sub a min) <? to_uint8 (int_sub max min).

(** [#define IS_INT_INSIDE(a, min, max) ((uint)((a) - (min)) < (uint)((max) - (min)))] *)
Definition IS_INT_INSIDE (a min max : Z) : bool :=
  to_uint (int_sub a min) <? to_uint (int_sub max min).

(** The single-bit templates, at [T = uint32]. The bit position [y] is a
    [uint8]; [(T)1U << y] has no defined result from position 32 on. *)

(** [template<typename T> bool HASBIT(const T x, const uint8 y)] *)
Definition HASBIT (x y : Z) : option bool :=
  let? bit := uint_shl 1 y in
  Some (negb (Z.land (to_uint x) bit =? 0)).

(** [template<typename T> T SETBIT(T& x, const uint8 y)]; the result is
    the new value of [x], which is also what the call returns. *)
Definition SETBIT (x y : Z) : option Z :=
  let? bit := uint_shl 1 y in
  Some (Z.lor (to_uint x) bit).

(** [template<typename T> T CLRBIT(T& x, const uint8 y)] *)
Definition CLRBIT (x y : Z) : option Z :=
  let? bit := uint_shl 1 y in
  Some (Z.land (to_uint x) (uint_not bit)).

(** [template<typename T> T TOGGLEBIT(T& x, const uint8 y)] *)
Definition TOGGLEBIT (x y : Z) : option Z :=
  let? bit := uint_shl 1 y in
  Some (Z.lxor (to_uint x) bit).

(** [template<typename T> uint COUNTBITS(T value)], at [T = uint32]:
    [for (num = 0; value != 0; num++) value &= (T)(value - 1);]
    The loop runs on fuel; [None] means the fuel ran out. *)
Fixpoint COUNTBITS_loop (fuel : nat) (value num : Z) : option Z :=
  match fuel with
  | O => None
  | S fuel' =>
      if negb (value =? 0)
      then COUNTBITS_loop fuel' (Z.land value (uint_sub value 1)) (uint_add num 1)
      else Some num
  end.

Definition COUNTBITS (fuel : nat) (value : Z) : option Z :=
  COUNTBITS_loop fuel (to_uint value) 0.

(** [#define ROL(x, n) ((x) << (n) | (x) >> (sizeof(x) * 8 - (n)))]
    on a [uint32] operand. *)
Definition ROL (x n : Z) : option Z :=
  let? hi := uint_shl (to_uint x) n in
  let? lo := uint_shr x (4 * 8 - n) in
  Some (Z.lor hi lo).

(** [#define ROR(x, n) ((x) >> (n) | (x) << (sizeof(x) * 8 - (n)))] *)
Definition ROR (x n : Z) : option Z :=
  let? lo := uint_shr x n in
  let? hi := uint_shl (to_uint x) (4 * 8 - n) in
  Some (Z.lor lo hi).

(** [#define ALIGN(x, n) (((x) + (n) - 1) & ~((n) - 1))] on [uint] operands. *)
Definition ALIGN (x n : Z) : Z :=
  Z.land (uint_sub (uint_add x n) 1) (uint_not (uint_sub n 1)).

(** [#define CHANCE16I(a, b, v) ((uint16)(v) <= (uint16)((65536 * (a)) / (b)))]
    on [int] operands; the division truncates and has no result for a
    zero divisor. *)
Definition CHANCE16I (a b v : Z) : option bool :=
  if b =? 0 then None
  else Some (to_uint16 v <=? to_uint16 (to_int (Z.quot (int_mul 65536 a) b))).

Section FirstBitTable.

(** [extern const byte _ffb_64[128];]: the table is defined elsewhere and
    is taken as an argument, [_ffb_64 i] being the entry at index [i]. *)
Variable _ffb_64 : Z -> Z.

(** [#define FIND_FIRST_BIT(x) _ffb_64[(x)]] *)
Definition FIND_FIRST_BIT (x : Z) : Z := _ffb_64 x.

(** [#define KILL_FIRST_BIT(x) _ffb_64[(x) + 64]] *)
Definition KILL_FIRST_BIT (x : Z) : Z := _ffb_64 (x + 64).

(** [static inline int FindFirstBit2x64(int value)] *)
Definition FindFirstBit2x64 (value : Z) : option Z :=
  let? low8 := GB value 0 8 in
  if low8 =? 0 then
    let? high6 := GB value 8 6 in
    Some (int_add (FIND_FIRST_BIT high6) 8)
  else
    let? low6 := GB value 0 6 in
    Some (FIND_FIRST_BIT low6).

(** [static inline int KillFirstBit2x64(int value)] *)
Definition KillFirstBit2x64 (value : Z) : option Z :=
  let? low8 := GB value 0 8 in
  if low8 =? 0 then
    let? high6 := GB value 8 6 in
    Some (to_int (Z.shiftl (KILL_FIRST_BIT high6) 8))
  else
    let? low6 := GB value 0 6 in
    Some (Z.land value (Z.lor (KILL_FIRST_BIT low6) 16128)).

End FirstBitTable.

End Macros.

(** ** tile_map.cpp *)

Module TileMap.

Import Macros.

(** *** The [Slope] enumeration *)

(** Modelled from the spec: the [Slope] enumeration is declared in
    slope_type.h, which is not part of the sources at hand. The
    specification describes a bit mask of five flags, one per corner and
    one for steepness, with the all-zero value for a flat tile; the flags
    carry OpenTTD's numbering. *)
Definition Slope : Type := Z.

Definition SLOPE_FLAT : Slope := 0.
Definition SLOPE_W : Slope := 1.
Definition SLOPE_S : Slope := 2.
Definition SLOPE_E : Slope := 4.
Definition SLOPE_N : Slope := 8.
Definition SLOPE_STEEP : Slope := 16.

(** Whether every bit of the flag [f] is present in the mask [r]. *)
Definition has_flag (r f : Slope) : bool := Z.land r f =? f.

(** *** Optional output storage

    An [int *h] argument is [None] for a null pointer and [Some v] for a
    pointer to storage that currently holds [v]; functions give back the
    storage as they leave it. *)
Definition OutInt : Type := option Z.

(** [if (h != NULL) *h = v;] *)
Definition store (h : OutInt) (v : Z) : OutInt :=
  match h with
  | Some _ => Some v
  | None => None
  end.

(** [static Slope GetTileSlopeGivenHeight(int hnorth, int hwest,
                                          int heast, int hsouth, int *h)] *)
Definition GetTileSlopeGivenHeight (hnorth hwest heast hsouth : Z) (h : OutInt)
  : Slope * OutInt :=
  let hminnw := min hnorth hwest in
  let hmines := min heast hsouth in
  let hmin := min hminnw hmines in
  let hmaxnw := max hnorth hwest in
  let hmaxes := max heast hsouth in
  let hmax := max hmaxnw hmaxes in
  let r := SLOPE_FLAT in
  let r := if negb (hnorth =? hmin) then uint_add r SLOPE_N else r in
  let r := if negb (hwest =? hmin) then uint_add r SLOPE_W else r in
  let r := if negb (heast =? hmin) then uint_add r SLOPE_E else r in
  let r := if negb (hsouth =? hmin) then uint_add r SLOPE_S else r in
  let r := if int_sub hmax hmin =? 2 then uint_add r SLOPE_STEEP else r in
  (r, store h hmin).

(** *** The map interface

    The height map and the coordinate arithmetic live in map.h and
    tile_map.h, outside the sources at hand; the accessors below only
    call them. They are taken as an interface, one field per function
    or constant, over mathematical integers: the accessors convert a
    result to the C type of the variable that receives it, and do their
    own arithmetic in the C type of its operands. *)
Class MapAPI : Type := {
  MapSize : Z;
  MapMaxX : Z;
  MapMaxY : Z;
  TileX : Z -> Z;
  TileY : Z -> Z;
  TileDiffXY : Z -> Z -> Z;
  IsInnerTile : Z -> bool;
  TileHeight : Z -> Z;
  TileHeightOutsideMap : Z -> Z -> Z;
  TILE_HEIGHT : Z
}.

(** *** Queries on the height map

    A query either fails an assertion ([None]) or yields a result with
    the list of height look-ups it performed, in order. *)
Inductive Access : Type :=
| ReadTile (tile : Z)
| ReadOutside (x y : Z).

Definition Query (A : Type) : Type := option (A * list Access).

Definition ret {A : Type} (a : A) : Query A := Some (a, []).

Definition bind {A B : Type} (c : Query A) (k : A -> Query B) : Query B :=
  match c with
  | Some (a, l1) =>
      match k a with
      | Some (b, l2) => Some (b, l1 ++ l2)
      | None => None
      end
  | None => None
  end.

Notation "x <- c ;; k" := (bind c (fun x => k))
  (at level 61, c at next level, right associativity).

(** [assert(b);] *)
Definition assert (b : bool) : Query unit := if b then ret tt else None.

Section Accessors.

Context {M : MapAPI}.

(** A call of [TileHeight(tile)]. *)
Definition readTileHeight (tile : Z) : Query Z :=
  Some (TileHeight tile, [ReadTile tile]).

(** A call of [TileHeightOutsideMap(x, y)]. *)
Definition readTileHeightOutsideMap (x y : Z) : Query Z :=
  Some (TileHeightOutsideMap x y, [ReadOutside x y]).

(** [tile + TileDiffXY(dx, dy)] on the unsigned 32-bit [TileIndex]. *)
Definition tile_add (tile dx dy : Z) : Z := to_uint (tile + TileDiffXY dx dy).

(** [if (h != NULL) *h = TileHeight(tile);] *)
Definition store_TileHeight (h : OutInt) (tile : Z) : Query OutInt :=
  match h with
  | Some _ => z <- readTileHeight tile ;; ret (Some (to_int z))
  | None => ret None
  end.

(** [Slope GetTileSlope(TileIndex tile, int *h)] *)
Definition GetTileSlope (tile : Z) (h : OutInt) : Query (Slope * OutInt) :=
  _ <- assert (tile <? MapSize) ;;
  if negb (IsInnerTile tile) then
    h' <- store_TileHeight h tile ;;
    ret (SLOPE_FLAT, h')
  else
    hnorth <- readTileHeight tile ;;
    hwest <- readTileHeight (tile_add tile 1 0) ;;
    heast <- readTileHeight (tile_add tile 0 1) ;;
    hsouth <- readTileHeight (tile_add tile 1 1) ;;
    ret (GetTileSlopeGivenHeight (to_int hnorth) (to_int hwest)
                                 (to_int heast) (to_int hsouth) h).

(** [bool IsTileFlat(TileIndex tile, int *h)] *)
Definition IsTileFlat (tile : Z) (h : OutInt) : Query (bool * OutInt) :=
  _ <- assert (tile <? MapSize) ;;
  if negb (IsInnerTile tile) then
    h' <- store_TileHeight h tile ;;
    ret (true, h')
  else
    z0 <- readTileHeight tile ;;
    let z := to_uint z0 in
    z1 <- readTileHeight (tile_add tile 1 0) ;;
    if negb (to_uint z1 =? z) then ret (false, h) else
    z2 <- readTileHeight (tile_add tile 0 1) ;;
    if negb (to_uint z2 =? z) then ret (false, h) else
    z3 <- readTileHeight (tile_add tile 1 1) ;;
    if negb (to_uint z3 =? z) then ret (false, h) else
    ret (true, store h (to_int z)).

(** [Slope GetTilePixelSlopeOutsideMap(int x, int y, int *h)] *)
Definition GetTilePixelSlopeOutsideMap (x y : Z) (h : OutInt)
  : Query (Slope * OutInt) :=
  hnorth <- readTileHeightOutsideMap x y ;;
  hwest <- readTileHeightOutsideMap (int_add x 1) y ;;
  heast <- readTileHeightOutsideMap x (int_add y 1) ;;
  hsouth <- readTileHeightOutsideMap (int_add x 1) (int_add y 1) ;;
  let '(s, h1) := GetTileSlopeGivenHeight (to_int hnorth) (to_int hwest)
                                          (to_int heast) (to_int hsouth) h in
  let h2 := match h1 with
            | Some v => Some (int_mul v TILE_HEIGHT)
            | None => None
            end in
  ret (s, h2).

(** Whether the tile lies in the last column or the last row:
    [TileX(tile) == MapMaxX() || TileY(tile) == MapMaxY()]. *)
Definition on_max_edge (tile : Z) : bool :=
  (TileX tile =? MapMaxX) || (TileY tile =? MapMaxY).

(** [int GetTileZ(TileIndex tile)] *)
Definition GetTileZ (tile : Z) : Query Z :=
  if on_max_edge tile then ret 0 else
  h0 <- readTileHeight tile ;;
  let h := to_int h0 in
  hw <- readTileHeight (tile_add tile 1 0) ;;
  let h := min h (to_int hw) in
  he <- readTileHeight (tile_add tile 0 1) ;;
  let h := min h (to_int he) in
  hs <- readTileHeight (tile_add tile 1 1) ;;
  let h := min h (to_int hs) in
  ret h.

(** [int GetTileMaxZ(TileIndex t)] *)
Definition GetTileMaxZ (t : Z) : Query Z :=
  if on_max_edge t then
    z <- readTileHeightOutsideMap (TileX t) (TileY t) ;;
    ret (to_int z)
  else
  h0 <- readTileHeight t ;;
  let h := to_int h0 in
  hw <- readTileHeight (tile_add t 1 0) ;;
  let h := max h (to_int hw) in
  he <- readTileHeight (tile_add t 0 1) ;;
  let h := max h (to_int he) in
  hs <- readTileHeight (tile_add t 1 1) ;;
  let h := max h (to_int hs) in
  ret h.

(** [int GetTilePixelZOutsideMap(int x, int y)]; the running minimum is
    a [uint] and is taken with the template [min]. *)
Definition GetTilePixelZOutsideMap (x y : Z) : Query Z :=
  h0 <- readTileHeightOutsideMap x y ;;
  let h := to_uint h0 in
  hw <- readTileHeightOutsideMap (int_add x 1) y ;;
  let h := min_T h (to_uint hw) in
  he <- readTileHeightOutsideMap x (int_add y 1) ;;
  let h := min_T h (to_uint he) in
  hs <- readTileHeightOutsideMap (int_add x 1) (int_add y 1) ;;
  let h := min_T h (to_uint hs) in
  ret (to_int (uint_mul h TILE_HEIGHT)).

(** [int GetTileMaxPixelZOutsideMap(int x, int y)] *)
Definition GetTileMaxPixelZOutsideMap (x y : Z) : Query Z :=
  h0 <- readTileHeightOutsideMap x y ;;
  let h := to_uint h0 in
  hw <- readTileHeightOutsideMap (int_add x 1) y ;;
  let h := max h (to_uint hw) in
  he <- readTileHeightOutsideMap x (int_add y 1) ;;
  let h := max h (to_uint he) in
  hs <- readTileHeightOutsideMap (int_add x 1) (int_add y 1) ;;
  let h := max h (to_uint hs) in
  ret (to_int (uint_mul h TILE_HEIGHT)).

End Accessors.

End TileMap.
Import TileMap.

(** ** Notions used to state the properties *)

Module Notions.

(** Least and greatest of four corner heights. *)
Definition min4 (a b c d : Z) : Z := Z.min (Z.min a b) (Z.min c d).
Definition max4 (a b c d : Z) : Z := Z.max (Z.max a b) (Z.max c d).

(** The mask that carries exactly the chosen flags. *)
Definition mask_of (n w e s steep : bool) : Slope :=
  (if n then SLOPE_N else 0) + (if w then SLOPE_W else 0)
  + (if e then SLOPE_E else 0) + (if s then SLOPE_S else 0)
  + (if steep then SLOPE_STEEP else 0).

(** The four corner flags together. *)
Definition SLOPE_CORNERS : Slope := SLOPE_N + SLOPE_W + SLOPE_E + SLOPE_S.

(** The slope a classifier call returns and the storage it leaves. *)
Definition slope_of (hN hW hE hS : Z) : Slope :=
  fst (GetTileSlopeGivenHeight hN hW hE hS None).

(** Terrain without gaps: corners that are neighbours on the grid (north
    and south each touch west and east) differ by at most one height unit. *)
Definition gap_free (hN hW hE hS : Z) : Prop :=
  Z.abs (hN - hW) <= 1 /\ Z.abs (hN - hE) <= 1
  /\ Z.abs (hS - hW) <= 1 /\ Z.abs (hS - hE) <= 1.

(** The number of set bits among the 32 low bits of a value. *)
Definition bits_set (width : nat) (v : Z) : Z :=
  Z.of_nat (length (filter (Z.testbit v) (map Z.of_nat (seq 0 width)))).

(** [k] is the position of the lowest set bit of [v]. *)
Definition lowest_set_bit (v k : Z) : Prop :=
  0 <= k /\ Z.testbit v k = true
  /\ forall j : Z, 0 <= j < k -> Z.testbit v j = false.

(** What the header documents of the table behind [FIND_FIRST_BIT] and
    [KILL_FIRST_BIT]: on a 6-bit value the first half gives the position
    of the lowest set bit (0 for the value 0) and the second half the
    value with that bit cleared. *)
Definition ffb_table_ok (ffb : Z -> Z) : Prop :=
  ffb 0 = 0
  /\ (forall x : Z, 0 < x < 64 -> lowest_set_bit x (ffb x))
  /\ (forall x : Z, 0 <= x < 64 -> ffb (x + 64) = Z.land x (x - 1)).

Section Corners.

Context {M : MapAPI}.

(** The four corner heights of a tile, as the accessors receive them:
    the tile itself holds the north corner, its neighbours at (1,0),
    (0,1) and (1,1) the west, east and south ones. *)
Definition cornerN (tile : Z) : Z := to_int (TileHeight tile).
Definition cornerW (tile : Z) : Z := to_int (TileHeight (tile_add tile 1 0)).
Definition cornerE (tile : Z) : Z := to_int (TileHeight (tile_add tile 0 1)).
Definition cornerS (tile : Z) : Z := to_int (TileHeight (tile_add tile 1 1)).

(** The look-ups of a four-corner fetch, in program order. *)
Definition corner_reads (tile : Z) : list Access :=
  [ReadTile tile; ReadTile (tile_add tile 1 0);
   ReadTile (tile_add tile 0 1); ReadTile (tile_add tile 1 1)].

(** The same for a tile outside the map, from the outside-map heights. *)
Definition outsideN (x y : Z) : Z := to_int (TileHeightOutsideMap x y).
Definition outsideW (x y : Z) : Z := to_int (TileHeightOutsideMap (int_add x 1) y).
Definition outsideE (x y : Z) : Z := to_int (TileHeightOutsideMap x (int_add y 1)).
Definition outsideS (x y : Z) : Z :=
  to_int (TileHeightOutsideMap (int_add x 1) (int_add y 1)).

Definition outside_reads (x y : Z) : list Access :=
  [ReadOutside x y; ReadOutside (int_add x 1) y;
   ReadOutside x (int_add y 1); ReadOutside (int_add x 1) (int_add y 1)].

(** The look-ups of [if (h != NULL) *h = TileHeight(tile);]. *)
Definition store_reads (h : OutInt) (tile : Z) : list Access :=
  match h with
  | Some _ => [ReadTile tile]
  | None => []
  end.

(** The four outside-map heights around (x, y), as the map gives them. *)
Definition outside_heights (x y : Z) : list Z :=
  [TileHeightOutsideMap x y; TileHeightOutsideMap (int_add x 1) y;
   TileHeightOutsideMap x (int_add y 1);
   TileHeightOutsideMap (int_add x 1) (int_add y 1)].

End Corners.

End Notions.
Import Notions.

(** ** A sample map

    A 4 x 4 map with row-major tile indices, used to run the accessors.
    Heights, row by row:
<<
      2 3 2 2
      2 2 2 1
      1 1 1 1
      1 1 1 3
>>
    Outside the grid the height is that of the nearest tile. *)

Module Sample.

Definition heights : list Z := [2; 3; 2; 2; 2; 2; 2; 1; 1; 1; 1; 1; 1; 1; 1; 3].

Definition height_at (tile : Z) : Z := nth (Z.to_nat tile) heights 0.

Definition clamp03 (c : Z) : Z := Z.max 0 (Z.min 3 c).

Definition map4x4 : MapAPI := {|
  MapSize := 16;
  MapMaxX := 3;
  MapMaxY := 3;
  TileX := fun t => t mod 4;
  TileY := fun t => t / 4;
  TileDiffXY := fun dx dy => dy * 4 + dx;
  IsInnerTile := fun t => (t mod 4 <? 3) && (t / 4 <? 3);
  TileHeight := height_at;
  TileHeightOutsideMap := fun x y => height_at (clamp03 y * 4 + clamp03 x);
  TILE_HEIGHT := 8
|}.

(** A table for [FIND_FIRST_BIT] and [KILL_FIRST_BIT], filled in as the
    header documents it. *)
Definition first_bit (x : Z) : Z :=
  if Z.testbit x 0 then 0 else
  if Z.testbit x 1 then 1 else
  if Z.testbit x 2 then 2 else
  if Z.testbit x 3 then 3 else
  if Z.testbit x 4 then 4 else
  if Z.testbit x 5 then 5 else 0.

Definition ffb (i : Z) : Z :=
  if i <? 64 then first_bit i else Z.land (i - 64) (i - 64 - 1).

End Sample.

(** * Properties *)

(** ** Integer conversions *)

Section ConversionFacts.

Lemma to_int_small (z : Z) : is_int z -> to_int z = z.
Proof.
  unfold is_int, INT_MIN, INT_MAX, to_int. intros H.
  rewrite Z.mod_small by lia. lia.
Qed.

Lemma to_int_range (z : Z) : is_int (to_int z).
Proof.
  unfold is_int, INT_MIN, INT_MAX, to_int.
  pose proof (Z.mod_pos_bound (z + 2147483648) 4294967296 eq_refl). lia.
Qed.

Lemma to_uint_small (z : Z) : is_uint z -> to_uint z = z.
Proof.
  unfold is_uint, UINT_MAX, to_uint. intros H. apply Z.mod_small. lia.
Qed.

Lemma to_uint_range (z : Z) : is_uint (to_uint z).
Proof.
  unfold is_uint, UINT_MAX, to_uint.
  pose proof (Z.mod_pos_bound z 4294967296 eq_refl). lia.
Qed.

(** The [int] reading is the [uint] reading, moved down by 2^32 when its
    top bit is set. *)
Lemma to_int_of_to_uint (z : Z) :
  to_int z = if to_uint z <? 2147483648 then to_uint z else to_uint z - 4294967296.
Proof.
  unfold to_uint, to_int.
  destruct (Z.ltb_spec (z mod 4294967296) 2147483648);
    Z.div_mod_to_equations; lia.
Qed.

Lemma to_uint_of_to_int (z : Z) : to_uint z = to_int z mod 4294967296.
Proof.
  unfold to_uint, to_int.
  replace ((z + 2147483648) mod 4294967296 - 2147483648)
    with ((z + 2147483648) mod 4294967296 + (-2147483648)) by lia.
  rewrite Z.add_mod_idemp_l by discriminate.
  f_equal. lia.
Qed.

(** Two values have the same [uint] reading exactly when they have the
    same [int] reading. *)
Lemma to_uint_eq_iff_to_int_eq (a b : Z) : to_uint a = to_uint b <-> to_int a = to_int b.
Proof.
  split; intros E.
  - rewrite !to_int_of_to_uint, E. reflexivity.
  - rewrite !to_uint_of_to_int, E. reflexivity.
Qed.

Lemma to_int_to_uint (z : Z) : to_int (to_uint z) = to_int z.
Proof.
  apply to_uint_eq_iff_to_int_eq. apply to_uint_small, to_uint_range.
Qed.

(** On [int] operands the wrapped difference of a larger and a smaller
    value is 2 only when the true difference is. *)
Lemma int_sub_is_2 (a b : Z) :
  is_int a -> is_int b -> b <= a -> (int_sub a b = 2 <-> a - b = 2).
Proof.
  unfold is_int, INT_MIN, INT_MAX, int_sub, to_int. intros Ha Hb Hle.
  Z.div_mod_to_equations. lia.
Qed.

Lemma int_sub_2_distinct (a b : Z) : int_sub a b = 2 -> a <> b.
Proof.
  intros H E. subst b. unfold int_sub in H. rewrite Z.sub_diag in H. discriminate H.
Qed.

End ConversionFacts.

(** ** [min] and [max] of macros.h *)

Section MinMaxFacts.

Lemma min_is_Zmin (a b : Z) : Macros.min a b = Z.min a b.
Proof. unfold Macros.min. destruct (Z.leb_spec a b); lia. Qed.

Lemma max_is_Zmax (a b : Z) : Macros.max a b = Z.max a b.
Proof. unfold Macros.max. rewrite Z.geb_leb. destruct (Z.leb_spec b a); lia. Qed.

End MinMaxFacts.

(** ** The corner-height classifier *)

Section ClassifierFacts.

Variables hN hW hE hS : Z.

(** The classifier in closed form: one flag per comparison. *)
Lemma classifier_closed_form (h : OutInt) :
  GetTileSlopeGivenHeight hN hW hE hS h
  = (mask_of (negb (hN =? min4 hN hW hE hS)) (negb (hW =? min4 hN hW hE hS))
             (negb (hE =? min4 hN hW hE hS)) (negb (hS =? min4 hN hW hE hS))
             (int_sub (max4 hN hW hE hS) (min4 hN hW hE hS) =? 2),
     store h (min4 hN hW hE hS)).
Proof.
  unfold GetTileSlopeGivenHeight.
  rewrite !min_is_Zmin, !max_is_Zmax.
  fold (min4 hN hW hE hS). fold (max4 hN hW hE hS).
  generalize (min4 hN hW hE hS) as m, (max4 hN hW hE hS) as mx. intros m mx.
  destruct (hN =? m), (hW =? m), (hE =? m), (hS =? m), (int_sub mx m =? 2);
    reflexivity.
Qed.

Lemma slope_independent_of_storage (h : OutInt) :
  fst (GetTileSlopeGivenHeight hN hW hE hS h) = slope_of hN hW hE hS.
Proof. unfold slope_of. rewrite !classifier_closed_form. reflexivity. Qed.

Lemma min4_le :
  min4 hN hW hE hS <= hN /\ min4 hN hW hE hS <= hW
  /\ min4 hN hW hE hS <= hE /\ min4 hN hW hE hS <= hS.
Proof. unfold min4. lia. Qed.

Lemma min4_attained :
  hN = min4 hN hW hE hS \/ hW = min4 hN hW hE hS
  \/ hE = min4 hN hW hE hS \/ hS = min4 hN hW hE hS.
Proof. unfold min4. lia. Qed.

Lemma max4_ge :
  hN <= max4 hN hW hE hS /\ hW <= max4 hN hW hE hS
  /\ hE <= max4 hN hW hE hS /\ hS <= max4 hN hW hE hS.
Proof. unfold max4. lia. Qed.

Lemma max4_attained :
  hN = max4 hN hW hE hS \/ hW = max4 hN hW hE hS
  \/ hE = max4 hN hW hE hS \/ hS = max4 hN hW hE hS.
Proof. unfold max4. lia. Qed.

End ClassifierFacts.

Section MaskFacts.

Variables n w e s steep : bool.

Lemma mask_of_N : has_flag (mask_of n w e s steep) SLOPE_N = n.
Proof. destruct n, w, e, s, steep; reflexivity. Qed.

Lemma mask_of_W : has_flag (mask_of n w e s steep) SLOPE_W = w.
Proof. destruct n, w, e, s, steep; reflexivity. Qed.

Lemma mask_of_E : has_flag (mask_of n w e s steep) SLOPE_E = e.
Proof. destruct n, w, e, s, steep; reflexivity. Qed.

Lemma mask_of_S : has_flag (mask_of n w e s steep) SLOPE_S = s.
Proof. destruct n, w, e, s, steep; reflexivity. Qed.

Lemma mask_of_STEEP : has_flag (mask_of n w e s steep) SLOPE_STEEP = steep.
Proof. destruct n, w, e, s, steep; reflexivity. Qed.

Lemma mask_of_flat :
  (mask_of n w e s steep =? SLOPE_FLAT) = negb (n || w || e || s || steep).
Proof. destruct n, w, e, s, steep; reflexivity. Qed.

Lemma mask_of_split :
  mask_of n w e s steep
  = Z.land (mask_of n w e s steep) SLOPE_CORNERS
    + (if steep then SLOPE_STEEP else 0).
Proof. destruct n, w, e, s, steep; reflexivity. Qed.

Lemma mask_of_corners :
  Z.land (mask_of n w e s steep) SLOPE_CORNERS = mask_of n w e s false.
Proof. destruct n, w, e, s, steep; reflexivity. Qed.

End MaskFacts.

Lemma differs_iff (a b : Z) : negb (a =? b) = true <-> a <> b.
Proof. destruct (Z.eqb_spec a b); simpl; split; congruence. Qed.

Lemma classifier_on_equal (x : Z) (h : OutInt) :
  GetTileSlopeGivenHeight x x x x h = (SLOPE_FLAT, store h x).
Proof.
  rewrite classifier_closed_form.
  assert (Emin : min4 x x x x = x) by (unfold min4; lia).
  assert (Emax : max4 x x x x = x) by (unfold max4; lia).
  rewrite Emin, Emax, Z.eqb_refl.
  unfold int_sub. rewrite Z.sub_diag. reflexivity.
Qed.

(** The mask is all-zero exactly when the four heights coincide. *)
Lemma classifier_flat_iff (hN hW hE hS : Z) (h : OutInt) :
  fst (GetTileSlopeGivenHeight hN hW hE hS h) = SLOPE_FLAT
  <-> hW = hN /\ hE = hN /\ hS = hN.
Proof.
  split.
  - rewrite classifier_closed_form. cbn [fst]. intros E.
    apply Z.eqb_eq in E. rewrite mask_of_flat in E.
    apply negb_true_iff in E.
    repeat (apply orb_false_elim in E; destruct E as [E ?]).
    repeat match goal with
           | H : negb (_ =? _) = false |- _ =>
               apply negb_false_iff, Z.eqb_eq in H
           end.
    repeat split; congruence.
  - intros (-> & -> & ->). rewrite classifier_on_equal. reflexivity.
Qed.

(** C2. The height the classifier stores is the least of the four corner
    heights (and nothing is stored through a null pointer); the mask it
    returns carries a corner's flag exactly when that corner's height
    differs from the least one; and on four equal heights [hN] it returns
    the flat mask with height [hN]. *)
Theorem classifier_min_and_corner_bits (hN hW hE hS : Z) (h : OutInt) (v : Z) :
  let hMin := min4 hN hW hE hS in
  let r := fst (GetTileSlopeGivenHeight hN hW hE hS h) in
  snd (GetTileSlopeGivenHeight hN hW hE hS (Some v)) = Some hMin
  /\ snd (GetTileSlopeGivenHeight hN hW hE hS None) = None
  /\ (has_flag r SLOPE_N = true <-> hN <> hMin)
  /\ (has_flag r SLOPE_W = true <-> hW <> hMin)
  /\ (has_flag r SLOPE_E = true <-> hE <> hMin)
  /\ (has_flag r SLOPE_S = true <-> hS <> hMin)
  /\ GetTileSlopeGivenHeight hN hN hN hN (Some v) = (SLOPE_FLAT, Some hN)
  /\ GetTileSlopeGivenHeight hN hN hN hN None = (SLOPE_FLAT, None).
Proof.
  cbv zeta. rewrite !(classifier_on_equal hN).
  rewrite !classifier_closed_form. cbn [fst snd store].
  rewrite mask_of_N, mask_of_W, mask_of_E, mask_of_S.
  split; [reflexivity |]. split; [reflexivity |].
  repeat split; try (apply differs_iff); try (apply <- differs_iff; assumption).
Qed.

(** C3. On [int] corner heights the steep flag is in the returned mask
    exactly when the greatest height exceeds the least by 2 (so never for a
    difference of 0 or 1); the flag comes on top of the corner flags, which
    are the ones the four comparisons with the least height give. *)
Theorem steep_iff_delta_two (hN hW hE hS : Z) (h : OutInt) :
  is_int hN -> is_int hW -> is_int hE -> is_int hS ->
  let hMin := min4 hN hW hE hS in
  let delta := max4 hN hW hE hS - hMin in
  let r := fst (GetTileSlopeGivenHeight hN hW hE hS h) in
  (has_flag r SLOPE_STEEP = true <-> delta = 2)
  /\ r = Z.land r SLOPE_CORNERS + (if delta =? 2 then SLOPE_STEEP else 0)
  /\ Z.land r SLOPE_CORNERS
     = mask_of (negb (hN =? hMin)) (negb (hW =? hMin))
               (negb (hE =? hMin)) (negb (hS =? hMin)) false.
Proof.
  intros HN HW HE HS. cbv zeta.
  rewrite classifier_closed_form. cbn [fst].
  rewrite mask_of_STEEP, mask_of_corners.
  assert (Hsub : int_sub (max4 hN hW hE hS) (min4 hN hW hE hS) = 2
                 <-> max4 hN hW hE hS - min4 hN hW hE hS = 2).
  { apply int_sub_is_2; unfold is_int, max4, min4 in *; lia. }
  assert (Hb : (int_sub (max4 hN hW hE hS) (min4 hN hW hE hS) =? 2)
               = (max4 hN hW hE hS - min4 hN hW hE hS =? 2)).
  { destruct (Z.eqb_spec (int_sub (max4 hN hW hE hS) (min4 hN hW hE hS)) 2) as [E | E];
      destruct (Z.eqb_spec (max4 hN hW hE hS - min4 hN hW hE hS) 2) as [E' | E'];
      try reflexivity; exfalso; tauto. }
  split; [| split].
  - rewrite Z.eqb_eq. exact Hsub.
  - rewrite Hb. rewrite <- mask_of_corners with (steep := (max4 hN hW hE hS - min4 hN hW hE hS =? 2)).
    apply mask_of_split.
  - reflexivity.
Qed.

Lemma steep_iff_delta_two_witness :
  is_int 2 /\ is_int 4
  /\ (has_flag (fst (GetTileSlopeGivenHeight 2 4 2 2 None)) SLOPE_STEEP = true
      <-> max4 2 4 2 2 - min4 2 4 2 2 = 2).
Proof.
  assert (H2 : is_int 2) by (unfold is_int, INT_MIN, INT_MAX; lia).
  assert (H4 : is_int 4) by (unfold is_int, INT_MIN, INT_MAX; lia).
  split; [exact H2 |]. split; [exact H4 |].
  exact (proj1 (steep_iff_delta_two 2 4 2 2 None H2 H4 H2 H2)).
Defined.

(** C10. The returned mask never carries all four corner flags, and when it
    carries the steep flag it carries a corner flag as well. *)
Theorem mask_not_all_corners_nor_steep_alone (hN hW hE hS : Z) (h : OutInt) :
  let r := fst (GetTileSlopeGivenHeight hN hW hE hS h) in
  has_flag r SLOPE_N && has_flag r SLOPE_W && has_flag r SLOPE_E && has_flag r SLOPE_S
  = false
  /\ (has_flag r SLOPE_STEEP = true ->
      has_flag r SLOPE_N || has_flag r SLOPE_W || has_flag r SLOPE_E || has_flag r SLOPE_S
      = true).
Proof.
  cbv zeta. rewrite classifier_closed_form. cbn [fst].
  rewrite mask_of_N, mask_of_W, mask_of_E, mask_of_S, mask_of_STEEP.
  split.
  - destruct (min4_attained hN hW hE hS) as [E | [E | [E | E]]];
      apply Z.eqb_eq in E; rewrite E; cbn [negb];
      rewrite ?andb_false_r; reflexivity.
  - intros Hsteep. apply Z.eqb_eq, int_sub_2_distinct in Hsteep.
    destruct (max4_attained hN hW hE hS) as [E | [E | [E | E]]];
      rewrite <- E in Hsteep; apply differs_iff in Hsteep; rewrite Hsteep;
      rewrite ?orb_true_r; reflexivity.
Qed.

Lemma mask_not_all_corners_nor_steep_alone_witness :
  has_flag (fst (GetTileSlopeGivenHeight 2 4 2 2 None)) SLOPE_STEEP = true
  /\ has_flag (fst (GetTileSlopeGivenHeight 2 4 2 2 None)) SLOPE_N
     || has_flag (fst (GetTileSlopeGivenHeight 2 4 2 2 None)) SLOPE_W
     || has_flag (fst (GetTileSlopeGivenHeight 2 4 2 2 None)) SLOPE_E
     || has_flag (fst (GetTileSlopeGivenHeight 2 4 2 2 None)) SLOPE_S = true.
Proof.
  split; [reflexivity |].
  apply (mask_not_all_corners_nor_steep_alone 2 4 2 2 None). reflexivity.
Defined.

(** ** Invariance under permutation of the corners *)

Section PermutationFacts.

Lemma existsb_Permutation (f : Z -> bool) (l l' : list Z) :
  Permutation l l' -> existsb f l = existsb f l'.
Proof.
  induction 1 as [| x l l' _ IH | x y l | l l' l'' _ IH1 _ IH2]; cbn [existsb].
  - reflexivity.
  - rewrite IH. reflexivity.
  - destruct (f x), (f y); reflexivity.
  - rewrite IH1. exact IH2.
Qed.

Lemma least_unique (l : list Z) (u v : Z) :
  In u l -> Forall (Z.le u) l -> In v l -> Forall (Z.le v) l -> u = v.
Proof.
  intros Iu Fu Iv Fv. rewrite Forall_forall in Fu, Fv.
  apply Z.le_antisymm; [apply Fu | apply Fv]; assumption.
Qed.

Lemma greatest_unique (l : list Z) (u v : Z) :
  In u l -> Forall (Z.ge u) l -> In v l -> Forall (Z.ge v) l -> u = v.
Proof.
  intros Iu Fu Iv Fv. rewrite Forall_forall in Fu, Fv.
  apply Z.le_antisymm; apply Z.ge_le; [apply Fv | apply Fu]; assumption.
Qed.

Lemma min4_is_least (a b c d : Z) :
  In (min4 a b c d) [a; b; c; d] /\ Forall (Z.le (min4 a b c d)) [a; b; c; d].
Proof.
  split.
  - cbn [In]. destruct (min4_attained a b c d) as [E | [E | [E | E]]]; auto.
  - destruct (min4_le a b c d) as (Ha & Hb & Hc & Hd). repeat constructor; assumption.
Qed.

Lemma max4_is_greatest (a b c d : Z) :
  In (max4 a b c d) [a; b; c; d] /\ Forall (Z.ge (max4 a b c d)) [a; b; c; d].
Proof.
  split.
  - cbn [In]. destruct (max4_attained a b c d) as [E | [E | [E | E]]]; auto.
  - destruct (max4_ge a b c d) as (Ha & Hb & Hc & Hd).
    repeat constructor; apply Z.le_ge; assumption.
Qed.

Lemma min4_Permutation (a b c d a' b' c' d' : Z) :
  Permutation [a; b; c; d] [a'; b'; c'; d'] -> min4 a b c d = min4 a' b' c' d'.
Proof.
  intros P.
  destruct (min4_is_least a b c d) as [I F].
  destruct (min4_is_least a' b' c' d') as [I' F'].
  apply (least_unique [a'; b'; c'; d']); try assumption.
  - apply (Permutation_in _ P). exact I.
  - apply (Permutation_Forall P). exact F.
Qed.

Lemma max4_Permutation (a b c d a' b' c' d' : Z) :
  Permutation [a; b; c; d] [a'; b'; c'; d'] -> max4 a b c d = max4 a' b' c' d'.
Proof.
  intros P.
  destruct (max4_is_greatest a b c d) as [I F].
  destruct (max4_is_greatest a' b' c' d') as [I' F'].
  apply (greatest_unique [a'; b'; c'; d']); try assumption.
  - apply (Permutation_in _ P). exact I.
  - apply (Permutation_Forall P). exact F.
Qed.

End PermutationFacts.

(** C8. When the four corner heights are permuted, the classifier's
    verdict on flatness (the mask is all-zero), its verdict on steepness
    (the steep flag is set) and the least height it stores do not change. *)
Theorem classifier_permutation_invariant
  (a b c d a' b' c' d' : Z) (h : OutInt) :
  Permutation [a; b; c; d] [a'; b'; c'; d'] ->
  let r := fst (GetTileSlopeGivenHeight a b c d h) in
  let r' := fst (GetTileSlopeGivenHeight a' b' c' d' h) in
  (r =? SLOPE_FLAT) = (r' =? SLOPE_FLAT)
  /\ has_flag r SLOPE_STEEP = has_flag r' SLOPE_STEEP
  /\ snd (GetTileSlopeGivenHeight a b c d h)
     = snd (GetTileSlopeGivenHeight a' b' c' d' h).
Proof.
  intros P. cbv zeta. rewrite !classifier_closed_form. cbn [fst snd].
  rewrite !mask_of_flat, !mask_of_STEEP.
  rewrite <- (min4_Permutation _ _ _ _ _ _ _ _ P).
  rewrite <- (max4_Permutation _ _ _ _ _ _ _ _ P).
  pose proof (existsb_Permutation
                (fun x => negb (x =? min4 a b c d)) _ _ P) as Hex.
  cbn [existsb] in Hex. rewrite !orb_false_r, !orb_assoc in Hex.
  rewrite Hex. repeat split.
Qed.

Lemma classifier_permutation_invariant_witness :
  Permutation [2; 4; 3; 2] [3; 2; 2; 4]
  /\ (fst (GetTileSlopeGivenHeight 2 4 3 2 (Some 0)) =? SLOPE_FLAT)
     = (fst (GetTileSlopeGivenHeight 3 2 2 4 (Some 0)) =? SLOPE_FLAT)
  /\ has_flag (fst (GetTileSlopeGivenHeight 2 4 3 2 (Some 0))) SLOPE_STEEP
     = has_flag (fst (GetTileSlopeGivenHeight 3 2 2 4 (Some 0))) SLOPE_STEEP
  /\ snd (GetTileSlopeGivenHeight 2 4 3 2 (Some 0))
     = snd (GetTileSlopeGivenHeight 3 2 2 4 (Some 0)).
Proof.
  assert (P : Permutation [2; 4; 3; 2] [3; 2; 2; 4]).
  { apply perm_trans with (l' := [3; 2; 4; 2]).
    - apply perm_trans with (l' := [2; 3; 4; 2]).
      + apply perm_skip. apply perm_swap.
      + apply perm_swap.
    - apply perm_skip. apply perm_skip. apply perm_swap. }
  split; [exact P |].
  exact (classifier_permutation_invariant 2 4 3 2 3 2 2 4 (Some 0) P).
Defined.

(** The classifier on the corner heights of the specification's scenarios. *)
Example classify_all_equal :
  GetTileSlopeGivenHeight 2 2 2 2 (Some 0) = (SLOPE_FLAT, Some 2).
Proof. reflexivity. Qed.

Example classify_west_raised :
  GetTileSlopeGivenHeight 2 3 2 2 (Some 0) = (SLOPE_W, Some 2).
Proof. reflexivity. Qed.

Example classify_west_steep :
  GetTileSlopeGivenHeight 2 4 2 2 (Some 0) = (SLOPE_W + SLOPE_STEEP, Some 2).
Proof. reflexivity. Qed.

(** The corner flags themselves follow the corner that holds the height:
    the same heights placed on other corners give another mask. *)
Lemma corner_flags_follow_the_corner :
  fst (GetTileSlopeGivenHeight 3 2 2 2 None) = SLOPE_N
  /\ fst (GetTileSlopeGivenHeight 2 3 2 2 None) = SLOPE_W.
Proof. split; reflexivity. Qed.

(** ** The tile accessors *)

Section AccessorFacts.

Context {M : MapAPI}.

Lemma store_TileHeight_run (h : OutInt) (tile : Z) :
  store_TileHeight h tile
  = Some (store h (to_int (TileHeight tile)),
          store_reads h tile).
Proof. destruct h; reflexivity. Qed.

Lemma GetTileSlope_outer_run (tile : Z) (h : OutInt) :
  tile < MapSize -> IsInnerTile tile = false ->
  GetTileSlope tile h
  = Some ((SLOPE_FLAT, store h (to_int (TileHeight tile))),
          store_reads h tile).
Proof.
  intros Hlt Hout. apply Z.ltb_lt in Hlt.
  unfold GetTileSlope. rewrite Hlt, Hout. cbn [assert negb bind ret].
  rewrite store_TileHeight_run. cbn [app].
  destruct h; reflexivity.
Qed.

Lemma GetTileSlope_inner_run (tile : Z) (h : OutInt) :
  tile < MapSize -> IsInnerTile tile = true ->
  GetTileSlope tile h
  = Some (GetTileSlopeGivenHeight (cornerN tile) (cornerW tile)
                                  (cornerE tile) (cornerS tile) h,
          corner_reads tile).
Proof.
  intros Hlt Hin. apply Z.ltb_lt in Hlt.
  unfold GetTileSlope. rewrite Hlt, Hin. reflexivity.
Qed.

Lemma IsTileFlat_outer_run (tile : Z) (h : OutInt) :
  tile < MapSize -> IsInnerTile tile = false ->
  IsTileFlat tile h
  = Some ((true, store h (to_int (TileHeight tile))),
          store_reads h tile).
Proof.
  intros Hlt Hout. apply Z.ltb_lt in Hlt.
  unfold IsTileFlat. rewrite Hlt, Hout. cbn [assert negb bind ret].
  rewrite store_TileHeight_run. cbn [app].
  destruct h; reflexivity.
Qed.

(** On an inner tile [IsTileFlat] answers whether the three other corners
    have the height of the north corner, and stores that height if so. *)
Lemma IsTileFlat_inner_run (tile : Z) (h : OutInt) :
  tile < MapSize -> IsInnerTile tile = true ->
  exists (flat : bool) (log : list Access),
    IsTileFlat tile h
    = Some ((flat, if flat then store h (cornerN tile) else h), log)
    /\ (flat = true <->
        cornerW tile = cornerN tile /\ cornerE tile = cornerN tile
        /\ cornerS tile = cornerN tile).
Proof.
  intros Hlt Hin. apply Z.ltb_lt in Hlt.
  unfold IsTileFlat. rewrite Hlt, Hin.
  unfold cornerN, cornerW, cornerE, cornerS.
  cbn [assert negb bind ret readTileHeight app].
  destruct (Z.eqb_spec (to_uint (TileHeight (tile_add tile 1 0)))
                       (to_uint (TileHeight tile))) as [E1 | E1]; cbn [negb].
  2: { eexists false, _. split; [reflexivity |].
       split; [discriminate |]. intros (H1 & _).
       apply to_uint_eq_iff_to_int_eq in H1. contradiction. }
  destruct (Z.eqb_spec (to_uint (TileHeight (tile_add tile 0 1)))
                       (to_uint (TileHeight tile))) as [E2 | E2]; cbn [negb].
  2: { eexists false, _. split; [reflexivity |].
       split; [discriminate |]. intros (_ & H2 & _).
       apply to_uint_eq_iff_to_int_eq in H2. contradiction. }
  destruct (Z.eqb_spec (to_uint (TileHeight (tile_add tile 1 1)))
                       (to_uint (TileHeight tile))) as [E3 | E3]; cbn [negb].
  2: { eexists false, _. split; [reflexivity |].
       split; [discriminate |]. intros (_ & _ & H3).
       apply to_uint_eq_iff_to_int_eq in H3. contradiction. }
  eexists true, _. rewrite to_int_to_uint. split; [reflexivity |].
  split; [| reflexivity]. intros _.
  repeat split; apply to_uint_eq_iff_to_int_eq; assumption.
Qed.

Lemma GetTilePixelSlopeOutsideMap_run (x y : Z) (h : OutInt) :
  GetTilePixelSlopeOutsideMap x y h
  = Some ((slope_of (outsideN x y) (outsideW x y) (outsideE x y) (outsideS x y),
           store h (int_mul (min4 (outsideN x y) (outsideW x y)
                                  (outsideE x y) (outsideS x y))
                            TILE_HEIGHT)),
          outside_reads x y).
Proof.
  unfold GetTilePixelSlopeOutsideMap.
  cbn [bind ret readTileHeightOutsideMap app].
  fold (outsideN x y). fold (outsideW x y). fold (outsideE x y). fold (outsideS x y).
  rewrite (surjective_pairing (GetTileSlopeGivenHeight _ _ _ _ h)).
  rewrite slope_independent_of_storage.
  rewrite classifier_closed_form. cbn [snd].
  destruct h; reflexivity.
Qed.

Lemma on_max_edge_true (tile : Z) :
  on_max_edge tile = true <-> TileX tile = MapMaxX \/ TileY tile = MapMaxY.
Proof.
  unfold on_max_edge. rewrite orb_true_iff, !Z.eqb_eq. reflexivity.
Qed.

Lemma on_max_edge_false (tile : Z) :
  on_max_edge tile = false <-> TileX tile <> MapMaxX /\ TileY tile <> MapMaxY.
Proof.
  unfold on_max_edge. rewrite orb_false_iff, !Z.eqb_neq. reflexivity.
Qed.

Lemma GetTileZ_on_edge (tile : Z) :
  on_max_edge tile = true -> GetTileZ tile = Some (0, []).
Proof. intros H. unfold GetTileZ. rewrite H. reflexivity. Qed.

Lemma GetTileZ_off_edge (tile : Z) :
  on_max_edge tile = false ->
  GetTileZ tile
  = Some (min4 (cornerN tile) (cornerW tile) (cornerE tile) (cornerS tile),
          corner_reads tile).
Proof.
  intros H. unfold GetTileZ. rewrite H.
  cbn [bind ret readTileHeight app]. rewrite !min_is_Zmin.
  unfold min4, cornerN, cornerW, cornerE, cornerS, corner_reads.
  do 2 f_equal. lia.
Qed.

Lemma GetTileMaxZ_on_edge (t : Z) :
  on_max_edge t = true ->
  GetTileMaxZ t
  = Some (to_int (TileHeightOutsideMap (TileX t) (TileY t)),
          [ReadOutside (TileX t) (TileY t)]).
Proof. intros H. unfold GetTileMaxZ. rewrite H. reflexivity. Qed.

Lemma GetTileMaxZ_off_edge (t : Z) :
  on_max_edge t = false ->
  GetTileMaxZ t
  = Some (max4 (cornerN t) (cornerW t) (cornerE t) (cornerS t), corner_reads t).
Proof.
  intros H. unfold GetTileMaxZ. rewrite H.
  cbn [bind ret readTileHeight app]. rewrite !max_is_Zmax.
  unfold max4, cornerN, cornerW, cornerE, cornerS, corner_reads.
  do 2 f_equal. lia.
Qed.

End AccessorFacts.

(** C4. On a tile below [MapSize] that is not an inner tile, [GetTileSlope]
    returns the flat slope whatever the neighbouring heights are, stores the
    tile's own stored height when a height is requested, and looks up no
    other height: one look-up of the tile itself when a height is requested,
    none otherwise. *)
Theorem GetTileSlope_outer_tile_is_flat
  (M : MapAPI) (tile : Z) (h : OutInt) :
  tile < MapSize -> IsInnerTile tile = false ->
  GetTileSlope tile h
  = Some ((SLOPE_FLAT, store h (to_int (TileHeight tile))), store_reads h tile).
Proof. apply GetTileSlope_outer_run. Qed.

Lemma GetTileSlope_outer_tile_is_flat_witness :
  3 < @MapSize Sample.map4x4
  /\ @IsInnerTile Sample.map4x4 3 = false
  /\ @GetTileSlope Sample.map4x4 3 (Some 0)
     = Some ((SLOPE_FLAT, Some 2), [ReadTile 3]).
Proof.
  split; [reflexivity |]. split; [reflexivity |].
  apply (GetTileSlope_outer_tile_is_flat Sample.map4x4 3 (Some 0)); reflexivity.
Defined.

(** C5. On a tile below [MapSize], [IsTileFlat] answers true exactly when
    [GetTileSlope] returns the flat mask, and when it answers true it leaves
    in the height storage what [GetTileSlope] leaves there. *)
Theorem IsTileFlat_agrees_with_GetTileSlope
  (M : MapAPI) (tile : Z) (h : OutInt) :
  tile < MapSize ->
  exists (flat : bool) (hf : OutInt) (lf : list Access)
         (s : Slope) (hs : OutInt) (ls : list Access),
    IsTileFlat tile h = Some ((flat, hf), lf)
    /\ GetTileSlope tile h = Some ((s, hs), ls)
    /\ (flat = true <-> s = SLOPE_FLAT)
    /\ (flat = true -> hf = hs).
Proof.
  intros Hlt. destruct (IsInnerTile tile) eqn:Hin.
  - destruct (IsTileFlat_inner_run tile h Hlt Hin) as (flat & lf & Ef & Hflat).
    rewrite Ef, (GetTileSlope_inner_run tile h Hlt Hin).
    rewrite (surjective_pairing (GetTileSlopeGivenHeight _ _ _ _ h)).
    do 6 eexists. split; [reflexivity |]. split; [reflexivity |].
    split.
    + rewrite Hflat. symmetry. apply classifier_flat_iff.
    + intros Et. subst flat.
      destruct Hflat as [Hflat _]. destruct (Hflat eq_refl) as (EW & EE & ES).
      rewrite EW, EE, ES, classifier_on_equal. reflexivity.
  - rewrite (IsTileFlat_outer_run tile h Hlt Hin).
    rewrite (GetTileSlope_outer_run tile h Hlt Hin).
    do 6 eexists. split; [reflexivity |]. split; [reflexivity |].
    split; [| reflexivity]. split; reflexivity.
Qed.

Lemma IsTileFlat_agrees_with_GetTileSlope_witness :
  8 < @MapSize Sample.map4x4
  /\ exists (flat : bool) (hf : OutInt) (lf : list Access)
            (s : Slope) (hs : OutInt) (ls : list Access),
       @IsTileFlat Sample.map4x4 8 (Some 0) = Some ((flat, hf), lf)
       /\ @GetTileSlope Sample.map4x4 8 (Some 0) = Some ((s, hs), ls)
       /\ (flat = true <-> s = SLOPE_FLAT)
       /\ (flat = true -> hf = hs).
Proof.
  split; [reflexivity |].
  apply (IsTileFlat_agrees_with_GetTileSlope Sample.map4x4 8 (Some 0)).
  reflexivity.
Defined.

(** C6. [GetTilePixelSlopeOutsideMap] returns the mask the classifier gives
    on the outside-map heights at (x,y), (x+1,y), (x,y+1) and (x+1,y+1)
    (sums in [int] arithmetic) and stores the classifier's least height
    multiplied by [TILE_HEIGHT], as an [int], whereas on an inner tile
    [GetTileSlope] stores the least corner height as it is; neither stores
    anything through a null pointer. *)
Theorem GetTilePixelSlopeOutsideMap_scales_height
  (M : MapAPI) (x y tile v : Z) :
  GetTilePixelSlopeOutsideMap x y (Some v)
  = Some ((slope_of (outsideN x y) (outsideW x y) (outsideE x y) (outsideS x y),
           Some (to_int (min4 (outsideN x y) (outsideW x y)
                              (outsideE x y) (outsideS x y)
                         * TILE_HEIGHT))),
          outside_reads x y)
  /\ GetTilePixelSlopeOutsideMap x y None
     = Some ((slope_of (outsideN x y) (outsideW x y) (outsideE x y) (outsideS x y),
              None),
             outside_reads x y)
  /\ (tile < MapSize -> IsInnerTile tile = true ->
      GetTileSlope tile (Some v)
      = Some ((slope_of (cornerN tile) (cornerW tile) (cornerE tile) (cornerS tile),
               Some (min4 (cornerN tile) (cornerW tile)
                          (cornerE tile) (cornerS tile))),
              corner_reads tile)
      /\ GetTileSlope tile None
         = Some ((slope_of (cornerN tile) (cornerW tile) (cornerE tile) (cornerS tile),
                  None),
                 corner_reads tile)).
Proof.
  split; [| split].
  - rewrite GetTilePixelSlopeOutsideMap_run. reflexivity.
  - rewrite GetTilePixelSlopeOutsideMap_run. reflexivity.
  - intros Hlt Hin. rewrite !(GetTileSlope_inner_run tile _ Hlt Hin).
    rewrite (surjective_pairing (GetTileSlopeGivenHeight _ _ _ _ (Some v))).
    rewrite (surjective_pairing (GetTileSlopeGivenHeight _ _ _ _ None)).
    rewrite !slope_independent_of_storage, !classifier_closed_form.
    split; reflexivity.
Qed.

Lemma GetTilePixelSlopeOutsideMap_scales_height_witness :
  @GetTilePixelSlopeOutsideMap Sample.map4x4 0 0 (Some 0)
  = Some ((SLOPE_W, Some 16),
          [ReadOutside 0 0; ReadOutside 1 0; ReadOutside 0 1; ReadOutside 1 1])
  /\ 0 < @MapSize Sample.map4x4
  /\ @IsInnerTile Sample.map4x4 0 = true
  /\ @GetTileSlope Sample.map4x4 0 (Some 0)
     = Some ((SLOPE_W, Some 2), [ReadTile 0; ReadTile 1; ReadTile 4; ReadTile 5]).
Proof.
  destruct (GetTilePixelSlopeOutsideMap_scales_height
              Sample.map4x4 0 0 0 0) as (Hout & _ & Hin).
  split; [exact Hout |]. split; [reflexivity |]. split; [reflexivity |].
  apply Hin; reflexivity.
Defined.

(** C7. On a tile of the last column or the last row [GetTileMaxZ] returns
    the outside-map height at the tile's coordinates, without reading the
    tile's stored height; on any other tile it returns the greatest of the
    four corner heights. *)
Theorem GetTileMaxZ_edge_and_interior (M : MapAPI) (t : Z) :
  (TileX t = MapMaxX \/ TileY t = MapMaxY ->
   GetTileMaxZ t
   = Some (to_int (TileHeightOutsideMap (TileX t) (TileY t)),
           [ReadOutside (TileX t) (TileY t)]))
  /\ (TileX t <> MapMaxX -> TileY t <> MapMaxY ->
      GetTileMaxZ t
      = Some (max4 (cornerN t) (cornerW t) (cornerE t) (cornerS t),
              corner_reads t)).
Proof.
  split.
  - intros H. apply GetTileMaxZ_on_edge, on_max_edge_true, H.
  - intros HX HY. apply GetTileMaxZ_off_edge, on_max_edge_false. split; assumption.
Qed.

Lemma GetTileMaxZ_edge_and_interior_witness :
  (@TileX Sample.map4x4 3 = @MapMaxX Sample.map4x4
   \/ @TileY Sample.map4x4 3 = @MapMaxY Sample.map4x4)
  /\ @GetTileMaxZ Sample.map4x4 3 = Some (2, [ReadOutside 3 0])
  /\ @TileX Sample.map4x4 5 <> @MapMaxX Sample.map4x4
  /\ @TileY Sample.map4x4 5 <> @MapMaxY Sample.map4x4
  /\ @GetTileMaxZ Sample.map4x4 5
     = Some (2, [ReadTile 5; ReadTile 6; ReadTile 9; ReadTile 10]).
Proof.
  destruct (GetTileMaxZ_edge_and_interior Sample.map4x4 3) as [Hedge _].
  destruct (GetTileMaxZ_edge_and_interior Sample.map4x4 5) as [_ Hin].
  split; [left; reflexivity |].
  split; [apply Hedge; left; reflexivity |].
  split; [discriminate |]. split; [discriminate |].
  apply Hin; discriminate.
Defined.

(** ** The bit-window macros *)

Section BitWindowFacts.

Lemma to_uint_pow2 (z : Z) : to_uint z = z mod 2 ^ 32.
Proof. reflexivity. Qed.

Lemma to_uint_bits (z k : Z) :
  0 <= k -> Z.testbit (to_uint z) k = (k <? 32) && Z.testbit z k.
Proof.
  intros Hk. rewrite to_uint_pow2. destruct (Z.ltb_spec k 32).
  - rewrite Z.mod_pow2_bits_low by assumption. reflexivity.
  - rewrite Z.mod_pow2_bits_high by lia. reflexivity.
Qed.

Lemma is_uint_high_bits (x k : Z) : is_uint x -> 32 <= k -> Z.testbit x k = false.
Proof.
  intros Hx Hk. rewrite <- (to_uint_small x Hx), to_uint_bits by lia.
  destruct (Z.ltb_spec k 32); [lia | reflexivity].
Qed.

Lemma uint_shl_run (a k : Z) :
  0 <= k < 32 -> uint_shl a k = Some (to_uint (a * 2 ^ k)).
Proof.
  intros Hk. unfold uint_shl.
  destruct (Z.leb_spec 0 k); [| lia]. destruct (Z.ltb_spec k 32); [| lia].
  cbn [andb]. rewrite Z.shiftl_mul_pow2 by lia. reflexivity.
Qed.

Lemma uint_shr_run (a k : Z) :
  0 <= k < 32 -> uint_shr a k = Some (to_uint a / 2 ^ k).
Proof.
  intros Hk. unfold uint_shr.
  destruct (Z.leb_spec 0 k); [| lia]. destruct (Z.ltb_spec k 32); [| lia].
  cbn [andb]. rewrite Z.shiftr_div_pow2 by lia. reflexivity.
Qed.

Lemma pow2_lt_32 (n : Z) : 0 <= n < 32 -> 0 < 2 ^ n < 4294967296.
Proof.
  intros Hn. split; [apply Z.pow_pos_nonneg; lia |].
  change 4294967296 with (2 ^ 32). apply Z.pow_lt_mono_r; lia.
Qed.

(** [(1U << n) - 1] is the number with the [n] low bits set. *)
Lemma low_ones_run (n : Z) :
  0 <= n < 32 ->
  Macros.obind (uint_shl 1 n) (fun one_n => Some (uint_sub one_n 1))
  = Some (Z.ones n).
Proof.
  intros Hn. rewrite uint_shl_run by assumption. cbn [Macros.obind].
  pose proof (pow2_lt_32 n Hn) as Hp.
  rewrite Z.mul_1_l. unfold uint_sub.
  rewrite (to_uint_small (2 ^ n)) by (unfold is_uint, UINT_MAX; lia).
  rewrite to_uint_small by (unfold is_uint, UINT_MAX; lia).
  rewrite Z.ones_equiv. reflexivity.
Qed.

(** The window mask has exactly the bits [s .. s+n-1] set. *)
Lemma window_mask_run (s n : Z) :
  0 <= s < 32 -> 0 <= n < 32 -> s + n <= 32 ->
  Macros.window_mask s n = Some (Z.shiftl (Z.ones n) s).
Proof.
  intros Hs Hn Hsn. unfold Macros.window_mask.
  pose proof (low_ones_run n Hn) as Hones.
  destruct (uint_shl 1 n) as [one_n |]; [| discriminate Hones].
  cbn [Macros.obind] in *. injection Hones as Hones. rewrite Hones.
  rewrite uint_shl_run by assumption. f_equal.
  rewrite Z.shiftl_mul_pow2 by lia. apply to_uint_small.
  rewrite Z.ones_equiv. unfold is_uint, UINT_MAX.
  assert (Hpn : 0 < 2 ^ n) by (apply Z.pow_pos_nonneg; lia).
  assert (Hps : 0 < 2 ^ s) by (apply Z.pow_pos_nonneg; lia).
  assert (Hle : 2 ^ (n + s) <= 2 ^ 32) by (apply Z.pow_le_mono_r; lia).
  rewrite Z.pow_add_r in Hle by lia.
  change (2 ^ 32) with 4294967296 in Hle. nia.
Qed.

Lemma window_mask_bits (s n k : Z) :
  0 <= s -> 0 <= n -> 0 <= k ->
  Z.testbit (Z.shiftl (Z.ones n) s) k = (s <=? k) && (k <? s + n).
Proof.
  intros Hs Hn Hk. rewrite Z.shiftl_spec, Z.testbit_ones by lia.
  destruct (Z.leb_spec 0 (k - s)), (Z.leb_spec s k); try lia;
    destruct (Z.ltb_spec (k - s) n), (Z.ltb_spec k (s + n)); try lia; reflexivity.
Qed.

(** [GB] reads the window as a number below [2^n]. *)
Lemma GB_run (x s n : Z) :
  is_uint x -> 0 <= s < 32 -> 0 <= n < 32 ->
  Macros.GB x s n = Some ((x / 2 ^ s) mod 2 ^ n).
Proof.
  intros Hx Hs Hn. unfold Macros.GB.
  rewrite uint_shr_run by assumption. cbn [Macros.obind].
  pose proof (low_ones_run n Hn) as Hones.
  destruct (uint_shl 1 n) as [one_n |]; [| discriminate Hones].
  cbn [Macros.obind] in *. injection Hones as Hones. rewrite Hones.
  rewrite Z.land_ones by lia. rewrite to_uint_small by assumption. reflexivity.
Qed.

(** What [AB] computes, bit by bit. *)
Lemma AB_run (x s n i : Z) :
  is_uint x -> 0 <= s < 32 -> 0 <= n < 32 -> s + n <= 32 ->
  exists x' : Z,
    Macros.AB x s n i = Some x'
    /\ forall k : Z, 0 <= k ->
         Z.testbit x' k
         = if (s <=? k) && (k <? s + n)
           then Z.testbit (x + i * 2 ^ s) k
           else Z.testbit x k.
Proof.
  intros Hx Hs Hn Hsn. unfold Macros.AB.
  rewrite window_mask_run by assumption. cbn [Macros.obind].
  rewrite uint_shl_run by assumption. cbn [Macros.obind].
  eexists. split; [reflexivity |].
  intros k Hk.
  rewrite (to_uint_small x Hx).
  assert (Esum : uint_add x (to_uint (i * 2 ^ s)) = to_uint (x + i * 2 ^ s)).
  { unfold uint_add. rewrite !to_uint_pow2.
    apply Z.add_mod_idemp_r. discriminate. }
  rewrite Esum. unfold uint_not.
  rewrite Z.lor_spec, !Z.land_spec.
  rewrite !to_uint_bits by assumption.
  rewrite Z.lnot_spec by assumption.
  rewrite window_mask_bits by lia.
  destruct (Z.leb_spec s k); destruct (Z.ltb_spec k (s + n));
    destruct (Z.ltb_spec k 32); cbn [andb negb orb];
    rewrite ?andb_false_r, ?andb_true_r, ?orb_false_r; cbn [orb];
    try reflexivity; try lia;
    rewrite (is_uint_high_bits x k Hx) by assumption; reflexivity.
Qed.

End BitWindowFacts.

Lemma window_value_bits (a s n j : Z) :
  0 <= s -> 0 <= n -> 0 <= j ->
  Z.testbit ((a / 2 ^ s) mod 2 ^ n) j = (j <? n) && Z.testbit a (j + s).
Proof.
  intros Hs Hn Hj. destruct (Z.ltb_spec j n).
  - rewrite Z.mod_pow2_bits_low by assumption.
    rewrite Z.div_pow2_bits by assumption. reflexivity.
  - rewrite Z.mod_pow2_bits_high by lia. reflexivity.
Qed.

(** C9. For a [uint] value [x], a start bit [s] and a width [n] that are
    valid shift counts and whose window fits the 32-bit word, [AB] leaves
    every bit of [x] outside the window [s .. s+n-1] as it was, and the
    window (as [GB] reads it) then holds the old window value plus [i],
    reduced modulo [2^n]. *)
Theorem AB_adds_within_window (x s n i : Z) :
  is_uint x -> 0 <= s < 32 -> 0 <= n < 32 -> s + n <= 32 ->
  exists x' w : Z,
    Macros.AB x s n i = Some x'
    /\ is_uint x'
    /\ (forall k : Z, 0 <= k -> ~ (s <= k < s + n) ->
        Z.testbit x' k = Z.testbit x k)
    /\ Macros.GB x s n = Some w
    /\ Macros.GB x' s n = Some ((w + i) mod 2 ^ n).
Proof.
  intros Hx Hs Hn Hsn.
  destruct (AB_run x s n i Hx Hs Hn Hsn) as (x' & Erun & Hbits).
  assert (Hout : forall k : Z, 0 <= k -> ~ (s <= k < s + n) ->
                 Z.testbit x' k = Z.testbit x k).
  { intros k Hk Hnot. rewrite Hbits by assumption.
    destruct (Z.leb_spec s k); destruct (Z.ltb_spec k (s + n));
      cbn [andb]; try reflexivity. lia. }
  assert (Hx' : is_uint x').
  { assert (E : x' = to_uint x').
    { apply Z.bits_inj'. intros k Hk. rewrite to_uint_bits by assumption.
      destruct (Z.ltb_spec k 32); [reflexivity |]. cbn [andb].
      rewrite Hout by lia. apply is_uint_high_bits; assumption. }
    rewrite E. apply to_uint_range. }
  exists x', ((x / 2 ^ s) mod 2 ^ n).
  split; [exact Erun |]. split; [exact Hx' |]. split; [exact Hout |].
  split; [apply GB_run; assumption |].
  rewrite GB_run by assumption. f_equal.
  assert (Hp : 2 ^ s <> 0) by (apply Z.pow_nonzero; lia).
  assert (Hq : 2 ^ n <> 0) by (apply Z.pow_nonzero; lia).
  rewrite Z.add_mod_idemp_l by assumption.
  rewrite <- Z.div_add by assumption.
  apply Z.bits_inj'. intros j Hj.
  rewrite !window_value_bits by lia.
  destruct (Z.ltb_spec j n); [| reflexivity]. cbn [andb].
  rewrite Hbits by lia.
  destruct (Z.leb_spec s (j + s)); [| lia].
  destruct (Z.ltb_spec (j + s) (s + n)); [| lia].
  reflexivity.
Qed.

Lemma AB_adds_within_window_witness :
  is_uint 255 /\ 0 <= 4 < 32 /\ 0 <= 4 < 32 /\ 4 + 4 <= 32
  /\ exists x' w : Z,
       Macros.AB 255 4 4 1 = Some x'
       /\ is_uint x'
       /\ (forall k : Z, 0 <= k -> ~ (4 <= k < 4 + 4) ->
           Z.testbit x' k = Z.testbit 255 k)
       /\ Macros.GB 255 4 4 = Some w
       /\ Macros.GB x' 4 4 = Some ((w + 1) mod 2 ^ 4).
Proof.
  assert (Hx : is_uint 255) by (unfold is_uint, UINT_MAX; lia).
  assert (Hs : 0 <= 4 < 32) by lia.
  assert (Hsn : 4 + 4 <= 32) by lia.
  split; [exact Hx |]. split; [exact Hs |]. split; [exact Hs |].
  split; [exact Hsn |].
  exact (AB_adds_within_window 255 4 4 1 Hx Hs Hs Hsn).
Defined.

(** At a width of 32 with start bit 0 the window fits the word, yet the
    macro's own shift [1U << 32] has no defined result, so [AB] yields no
    new value there: the window is not incremented. *)
Lemma AB_full_width_counterexample :
  0 + 32 <= 32
  /\ ~ (exists x' w : Z,
          Macros.AB 255 0 32 1 = Some x'
          /\ Macros.GB 255 0 32 = Some w
          /\ Macros.GB x' 0 32 = Some ((w + 1) mod 2 ^ 32)).
Proof.
  split; [lia |]. intros (x' & w & E & _). discriminate E.
Qed.

(** At a width of 32 the macro's own shift [1U << n] has no defined
    result, whatever the start bit. *)
Example AB_full_width_undefined : Macros.AB 0 0 32 1 = None.
Proof. reflexivity. Qed.

(** The window wraps: adding 1 to a full 4-bit window at bit 4 of 255
    empties the window and leaves the low four bits alone. *)
Example AB_wraps_in_window : Macros.AB 255 4 4 1 = Some 15.
Proof. reflexivity. Qed.

(** ** [GetTileZ] on the last column and the last row *)

(** C1. On the sample map, tile 3 lies in the last column and stores
    height 2. [GetTileZ] returns 0 there, without reading the height map,
    whereas [GetTileSlope], [IsTileFlat] and [GetTileMaxZ] all report
    height 2 for the same tile. *)
Theorem GetTileZ_edge_tile_ignores_stored_height :
  @TileX Sample.map4x4 3 = @MapMaxX Sample.map4x4
  /\ @TileHeight Sample.map4x4 3 = 2
  /\ @GetTileZ Sample.map4x4 3 = Some (0, [])
  /\ @GetTileSlope Sample.map4x4 3 (Some 0) = Some ((SLOPE_FLAT, Some 2), [ReadTile 3])
  /\ @IsTileFlat Sample.map4x4 3 (Some 0) = Some ((true, Some 2), [ReadTile 3])
  /\ @GetTileMaxZ Sample.map4x4 3 = Some (2, [ReadOutside 3 0]).
Proof. repeat split. Qed.

(** On every map, [GetTileZ] returns 0 on a tile of the last column or the
    last row, and the least of the four corner heights on any other tile. *)
Lemma GetTileZ_edge_and_interior (M : MapAPI) (tile : Z) :
  (TileX tile = MapMaxX \/ TileY tile = MapMaxY -> GetTileZ tile = Some (0, []))
  /\ (TileX tile <> MapMaxX -> TileY tile <> MapMaxY ->
      GetTileZ tile
      = Some (min4 (cornerN tile) (cornerW tile) (cornerE tile) (cornerS tile),
              corner_reads tile)).
Proof.
  split.
  - intros H. apply GetTileZ_on_edge, on_max_edge_true, H.
  - intros HX HY. apply GetTileZ_off_edge, on_max_edge_false. split; assumption.
Qed.

(** X5. Off the last column and row both [GetTileZ] and [GetTileMaxZ]
    return, and the bottom height never exceeds the top height. *)
Lemma GetTileZ_le_GetTileMaxZ (M : MapAPI) (tile : Z) :
  TileX tile <> MapMaxX -> TileY tile <> MapMaxY ->
  exists (lo hi : Z) (l1 l2 : list Access),
    GetTileZ tile = Some (lo, l1) /\ GetTileMaxZ tile = Some (hi, l2) /\ lo <= hi.
Proof.
  intros HX HY.
  assert (Hoff : on_max_edge tile = false) by (apply on_max_edge_false; split; assumption).
  rewrite (GetTileZ_off_edge tile Hoff), (GetTileMaxZ_off_edge tile Hoff).
  do 4 eexists. split; [reflexivity |]. split; [reflexivity |].
  unfold min4, max4. lia.
Qed.

(** * Further properties *)

(** ** The classifier on shifted and on gap-free corner heights *)

Section ClassifierOnTerrain.

Variables hN hW hE hS : Z.

(** X1. Raising all four corners by the same amount [k] leaves the mask
    unchanged and raises the stored least height by [k]. *)
Theorem classifier_translation (k : Z) (h : OutInt) :
  GetTileSlopeGivenHeight (hN + k) (hW + k) (hE + k) (hS + k) h
  = (fst (GetTileSlopeGivenHeight hN hW hE hS h),
     store h (min4 hN hW hE hS + k)).
Proof.
  rewrite !classifier_closed_form. cbn [fst].
  assert (Em : min4 (hN + k) (hW + k) (hE + k) (hS + k) = min4 hN hW hE hS + k)
    by (unfold min4; lia).
  assert (Ex : max4 (hN + k) (hW + k) (hE + k) (hS + k) = max4 hN hW hE hS + k)
    by (unfold max4; lia).
  rewrite Em, Ex.
  assert (Eq : forall a b : Z, (a + k =? b + k) = (a =? b)).
  { intros a b. destruct (Z.eqb_spec a b), (Z.eqb_spec (a + k) (b + k));
      try reflexivity; lia. }
  rewrite !Eq. unfold int_sub.
  replace (max4 hN hW hE hS + k - (min4 hN hW hE hS + k))
    with (max4 hN hW hE hS - min4 hN hW hE hS) by lia.
  reflexivity.
Qed.

(** On gap-free corners the greatest height is at most 2 above the least,
    so the 32-bit difference is the true one. *)
Lemma gap_free_delta :
  gap_free hN hW hE hS ->
  0 <= max4 hN hW hE hS - min4 hN hW hE hS <= 2
  /\ int_sub (max4 hN hW hE hS) (min4 hN hW hE hS)
     = max4 hN hW hE hS - min4 hN hW hE hS.
Proof.
  unfold gap_free. intros (H1 & H2 & H3 & H4).
  assert (Hd : 0 <= max4 hN hW hE hS - min4 hN hW hE hS <= 2)
    by (unfold max4, min4; lia).
  split; [exact Hd |].
  unfold int_sub. apply to_int_small. unfold is_int, INT_MIN, INT_MAX. lia.
Qed.

(** X2. On gap-free corners the heights can be read back from the result:
    a corner stands one unit above the stored least height when its flag
    is set, and one more when the mask is steep and the opposite corner is
    the one without a flag. *)
Theorem gap_free_heights_recovered (h : OutInt) :
  gap_free hN hW hE hS ->
  let r := fst (GetTileSlopeGivenHeight hN hW hE hS h) in
  let m := min4 hN hW hE hS in
  let steep := has_flag r SLOPE_STEEP in
  hN = m + Z.b2z (has_flag r SLOPE_N) + Z.b2z (steep && negb (has_flag r SLOPE_S))
  /\ hW = m + Z.b2z (has_flag r SLOPE_W) + Z.b2z (steep && negb (has_flag r SLOPE_E))
  /\ hE = m + Z.b2z (has_flag r SLOPE_E) + Z.b2z (steep && negb (has_flag r SLOPE_W))
  /\ hS = m + Z.b2z (has_flag r SLOPE_S) + Z.b2z (steep && negb (has_flag r SLOPE_N)).
Proof.
  intros G. destruct (gap_free_delta G) as [Hd Esub].
  cbv zeta. rewrite classifier_closed_form. cbn [fst].
  rewrite mask_of_N, mask_of_W, mask_of_E, mask_of_S, mask_of_STEEP, Esub.
  unfold gap_free in G. destruct G as (H1 & H2 & H3 & H4).
  destruct (Z.eqb_spec hN (min4 hN hW hE hS));
    destruct (Z.eqb_spec hW (min4 hN hW hE hS));
    destruct (Z.eqb_spec hE (min4 hN hW hE hS));
    destruct (Z.eqb_spec hS (min4 hN hW hE hS));
    destruct (Z.eqb_spec (max4 hN hW hE hS - min4 hN hW hE hS) 2);
    cbn [negb andb Z.b2z]; unfold min4, max4 in *; lia.
Qed.

(** X3. On gap-free corners the mask is one of the nineteen slopes: either
    it has no steep flag and at most three corner flags, or it is the steep
    flag with exactly three corner flags. *)
Theorem gap_free_mask_is_a_slope (h : OutInt) :
  gap_free hN hW hE hS ->
  let r := fst (GetTileSlopeGivenHeight hN hW hE hS h) in
  0 <= r < SLOPE_CORNERS
  \/ r = SLOPE_STEEP + SLOPE_CORNERS - SLOPE_N
  \/ r = SLOPE_STEEP + SLOPE_CORNERS - SLOPE_W
  \/ r = SLOPE_STEEP + SLOPE_CORNERS - SLOPE_E
  \/ r = SLOPE_STEEP + SLOPE_CORNERS - SLOPE_S.
Proof.
  intros G. destruct (gap_free_delta G) as [Hd Esub].
  cbv zeta. rewrite classifier_closed_form. cbn [fst]. rewrite Esub.
  unfold gap_free in G. destruct G as (H1 & H2 & H3 & H4).
  destruct (Z.eqb_spec hN (min4 hN hW hE hS));
    destruct (Z.eqb_spec hW (min4 hN hW hE hS));
    destruct (Z.eqb_spec hE (min4 hN hW hE hS));
    destruct (Z.eqb_spec hS (min4 hN hW hE hS));
    destruct (Z.eqb_spec (max4 hN hW hE hS - min4 hN hW hE hS) 2);
    cbn [negb]; unfold mask_of;
    unfold SLOPE_CORNERS, SLOPE_STEEP, SLOPE_N, SLOPE_W, SLOPE_E, SLOPE_S;
    cbn [Z.add Pos.add Pos.succ Z.sub Z.opp Z.pos_sub Pos.pred_double Z.succ_double Z.pred_double Z.double];
    try (left; lia); try (right; left; reflexivity);
    try (right; right; left; reflexivity);
    try (right; right; right; left; reflexivity);
    try (right; right; right; right; reflexivity);
    exfalso; unfold min4, max4 in *; lia.
Qed.

End ClassifierOnTerrain.

Lemma gap_free_heights_recovered_witness :
  gap_free 4 3 3 2
  /\ 4 = 2 + Z.b2z (has_flag (fst (GetTileSlopeGivenHeight 4 3 3 2 None)) SLOPE_N)
         + Z.b2z (has_flag (fst (GetTileSlopeGivenHeight 4 3 3 2 None)) SLOPE_STEEP
                  && negb (has_flag (fst (GetTileSlopeGivenHeight 4 3 3 2 None)) SLOPE_S)).
Proof.
  assert (G : gap_free 4 3 3 2) by (unfold gap_free; cbn; lia).
  split; [exact G |].
  exact (proj1 (gap_free_heights_recovered 4 3 3 2 None G)).
Defined.

Lemma gap_free_mask_is_a_slope_witness :
  gap_free 4 3 3 2
  /\ (0 <= fst (GetTileSlopeGivenHeight 4 3 3 2 None) < SLOPE_CORNERS
      \/ fst (GetTileSlopeGivenHeight 4 3 3 2 None) = SLOPE_STEEP + SLOPE_CORNERS - SLOPE_N
      \/ fst (GetTileSlopeGivenHeight 4 3 3 2 None) = SLOPE_STEEP + SLOPE_CORNERS - SLOPE_W
      \/ fst (GetTileSlopeGivenHeight 4 3 3 2 None) = SLOPE_STEEP + SLOPE_CORNERS - SLOPE_E
      \/ fst (GetTileSlopeGivenHeight 4 3 3 2 None) = SLOPE_STEEP + SLOPE_CORNERS - SLOPE_S).
Proof.
  assert (G : gap_free 4 3 3 2) by (unfold gap_free; cbn; lia).
  split; [exact G |].
  exact (gap_free_mask_is_a_slope 4 3 3 2 None G).
Defined.

(** ** The accessors of one tile against each other *)

Lemma corner_is_int (z : Z) : is_int (to_int z).
Proof. apply to_int_range. Qed.

(** X4. On an inner tile off the last column and row, [GetTileZ] returns
    the very height [GetTileSlope] stores, and [GetTileMaxZ] tells the
    slope's kind: the slope is flat exactly when top and bottom height
    coincide, and steep exactly when they differ by 2. *)
Theorem GetTileSlope_matches_GetTileZ_and_GetTileMaxZ
  (M : MapAPI) (tile v : Z) :
  tile < MapSize -> IsInnerTile tile = true ->
  TileX tile <> MapMaxX -> TileY tile <> MapMaxY ->
  exists (s : Slope) (z zmax : Z) (l1 l2 l3 : list Access),
    GetTileSlope tile (Some v) = Some ((s, Some z), l1)
    /\ GetTileZ tile = Some (z, l2)
    /\ GetTileMaxZ tile = Some (zmax, l3)
    /\ (s = SLOPE_FLAT <-> zmax = z)
    /\ (has_flag s SLOPE_STEEP = true <-> zmax - z = 2).
Proof.
  intros Hlt Hin HX HY.
  assert (Hoff : on_max_edge tile = false)
    by (apply on_max_edge_false; split; assumption).
  rewrite (GetTileSlope_inner_run tile (Some v) Hlt Hin).
  rewrite (GetTileZ_off_edge tile Hoff), (GetTileMaxZ_off_edge tile Hoff).
  set (a := cornerN tile). set (b := cornerW tile).
  set (c := cornerE tile). set (d := cornerS tile).
  rewrite (surjective_pairing (GetTileSlopeGivenHeight a b c d (Some v))).
  assert (Es : snd (GetTileSlopeGivenHeight a b c d (Some v)) = Some (min4 a b c d))
    by (rewrite classifier_closed_form; reflexivity).
  rewrite Es.
  do 6 eexists. split; [reflexivity |]. split; [reflexivity |].
  split; [reflexivity |].
  assert (Ha : is_int a) by apply corner_is_int.
  assert (Hb : is_int b) by apply corner_is_int.
  assert (Hc : is_int c) by apply corner_is_int.
  assert (Hd : is_int d) by apply corner_is_int.
  split.
  - rewrite classifier_flat_iff. unfold min4, max4. lia.
  - rewrite classifier_closed_form. cbn [fst].
    rewrite mask_of_STEEP, Z.eqb_eq.
    apply int_sub_is_2; unfold is_int, max4, min4 in *; lia.
Qed.

Lemma GetTileSlope_matches_GetTileZ_and_GetTileMaxZ_witness :
  0 < @MapSize Sample.map4x4
  /\ @IsInnerTile Sample.map4x4 0 = true
  /\ @TileX Sample.map4x4 0 <> @MapMaxX Sample.map4x4
  /\ @TileY Sample.map4x4 0 <> @MapMaxY Sample.map4x4
  /\ exists (s : Slope) (z zmax : Z) (l1 l2 l3 : list Access),
       @GetTileSlope Sample.map4x4 0 (Some 0) = Some ((s, Some z), l1)
       /\ @GetTileZ Sample.map4x4 0 = Some (z, l2)
       /\ @GetTileMaxZ Sample.map4x4 0 = Some (zmax, l3)
       /\ (s = SLOPE_FLAT <-> zmax = z)
       /\ (has_flag s SLOPE_STEEP = true <-> zmax - z = 2).
Proof.
  split; [reflexivity |]. split; [reflexivity |].
  split; [discriminate |]. split; [discriminate |].
  apply (GetTileSlope_matches_GetTileZ_and_GetTileMaxZ Sample.map4x4 0 0);
    try reflexivity; discriminate.
Defined.

Lemma GetTileZ_le_GetTileMaxZ_witness :
  @TileX Sample.map4x4 5 <> @MapMaxX Sample.map4x4
  /\ @TileY Sample.map4x4 5 <> @MapMaxY Sample.map4x4
  /\ exists (lo hi : Z) (l1 l2 : list Access),
       @GetTileZ Sample.map4x4 5 = Some (lo, l1)
       /\ @GetTileMaxZ Sample.map4x4 5 = Some (hi, l2) /\ lo <= hi.
Proof.
  split; [discriminate |]. split; [discriminate |].
  apply (GetTileZ_le_GetTileMaxZ Sample.map4x4 5); discriminate.
Defined.

(** X6. [IsTileFlat] on an inner tile below [MapSize] reads the corners in
    program order and stops at the first corner that differs from the north
    one: its look-ups are the first [k] of the four corner look-ups, for
    some [k] from 2 to 4, every corner read before the last one has the
    height of the north corner, and the answer is false exactly when the
    last one read differs. When it answers true all four were read and the
    common height is stored; when it answers false the height storage is
    left as it was found. *)
Theorem IsTileFlat_stops_at_first_mismatch
  (M : MapAPI) (tile : Z) (h : OutInt) :
  tile < MapSize -> IsInnerTile tile = true ->
  exists (flat : bool) (hf : OutInt) (k : nat),
    IsTileFlat tile h = Some ((flat, hf), firstn k (corner_reads tile))
    /\ (2 <= k <= 4)%nat
    /\ (forall i : nat, (i < k - 1)%nat ->
        nth i [cornerN tile; cornerW tile; cornerE tile; cornerS tile] 0
        = cornerN tile)
    /\ (flat = true ->
        k = 4%nat /\ cornerS tile = cornerN tile
        /\ hf = store h (cornerN tile))
    /\ (flat = false ->
        hf = h
        /\ nth (k - 1) [cornerN tile; cornerW tile; cornerE tile; cornerS tile] 0
           <> cornerN tile).
Proof.
  intros Hlt Hin. apply Z.ltb_lt in Hlt.
  unfold IsTileFlat. rewrite Hlt, Hin.
  unfold cornerN, cornerW, cornerE, cornerS, corner_reads.
  cbn [assert negb bind ret readTileHeight app].
  destruct (Z.eqb_spec (to_uint (TileHeight (tile_add tile 1 0)))
                       (to_uint (TileHeight tile))) as [E1 | E1]; cbn [negb].
  2: { exists false, h, 2%nat. split; [reflexivity |]. split; [lia |].
       split.
       { intros i Hi. assert (i = 0%nat) as -> by lia. reflexivity. }
       split; [intros X; discriminate X |]. intros _. split; [reflexivity |].
       cbn [nth Nat.sub]. intros E.
       apply to_uint_eq_iff_to_int_eq in E. contradiction. }
  destruct (Z.eqb_spec (to_uint (TileHeight (tile_add tile 0 1)))
                       (to_uint (TileHeight tile))) as [E2 | E2]; cbn [negb].
  2: { exists false, h, 3%nat. split; [reflexivity |]. split; [lia |].
       split.
       { intros i Hi. assert (i = 0 \/ i = 1)%nat as [-> | ->] by lia;
           cbn [nth]; [reflexivity |].
         apply to_uint_eq_iff_to_int_eq. exact E1. }
       split; [intros X; discriminate X |]. intros _. split; [reflexivity |].
       cbn [nth Nat.sub]. intros E.
       apply to_uint_eq_iff_to_int_eq in E. contradiction. }
  destruct (Z.eqb_spec (to_uint (TileHeight (tile_add tile 1 1)))
                       (to_uint (TileHeight tile))) as [E3 | E3]; cbn [negb].
  2: { exists false, h, 4%nat. split; [reflexivity |]. split; [lia |].
       split.
       { intros i Hi. assert (i = 0 \/ i = 1 \/ i = 2)%nat as [-> | [-> | ->]] by lia;
           cbn [nth]; [reflexivity | |];
           apply to_uint_eq_iff_to_int_eq; assumption. }
       split; [intros X; discriminate X |]. intros _. split; [reflexivity |].
       cbn [nth Nat.sub]. intros E.
       apply to_uint_eq_iff_to_int_eq in E. contradiction. }
  eexists true, _, 4%nat. split; [reflexivity |]. split; [lia |].
  split.
  { intros i Hi. assert (i = 0 \/ i = 1 \/ i = 2)%nat as [-> | [-> | ->]] by lia;
      cbn [nth]; [reflexivity | |];
      apply to_uint_eq_iff_to_int_eq; assumption. }
  split; [| intros X; discriminate X].
  intros _. split; [reflexivity |]. split.
  - apply to_uint_eq_iff_to_int_eq. exact E3.
  - rewrite to_int_to_uint. reflexivity.
Qed.

Lemma IsTileFlat_stops_at_first_mismatch_witness :
  0 < @MapSize Sample.map4x4
  /\ @IsInnerTile Sample.map4x4 0 = true
  /\ exists (flat : bool) (hf : OutInt) (k : nat),
       @IsTileFlat Sample.map4x4 0 (Some 7)
       = Some ((flat, hf), firstn k (@corner_reads Sample.map4x4 0))
       /\ (2 <= k <= 4)%nat
       /\ (forall i : nat, (i < k - 1)%nat ->
           nth i [@cornerN Sample.map4x4 0; @cornerW Sample.map4x4 0;
                  @cornerE Sample.map4x4 0; @cornerS Sample.map4x4 0] 0
           = @cornerN Sample.map4x4 0)
       /\ (flat = true ->
           k = 4%nat /\ @cornerS Sample.map4x4 0 = @cornerN Sample.map4x4 0
           /\ hf = store (Some 7) (@cornerN Sample.map4x4 0))
       /\ (flat = false ->
           hf = Some 7
           /\ nth (k - 1) [@cornerN Sample.map4x4 0; @cornerW Sample.map4x4 0;
                           @cornerE Sample.map4x4 0; @cornerS Sample.map4x4 0] 0
              <> @cornerN Sample.map4x4 0).
Proof.
  split; [reflexivity |]. split; [reflexivity |].
  apply (IsTileFlat_stops_at_first_mismatch Sample.map4x4 0 (Some 7)); reflexivity.
Defined.

Example IsTileFlat_sample_stops_after_two_reads :
  @IsTileFlat Sample.map4x4 0 (Some 7) = Some ((false, Some 7), [ReadTile 0; ReadTile 1]).
Proof. reflexivity. Qed.

Example IsTileFlat_sample_flat_tile :
  @IsTileFlat Sample.map4x4 8 (Some 7)
  = Some ((true, Some 1), [ReadTile 8; ReadTile 9; ReadTile 12; ReadTile 13]).
Proof. reflexivity. Qed.

(** ** The outside-map accessors against each other *)

Lemma Forall_four {A : Type} (P : A -> Prop) (a b c d : A) :
  Forall P [a; b; c; d] -> P a /\ P b /\ P c /\ P d.
Proof.
  intros F. inversion_clear F as [| ? ? Ha F1]. inversion_clear F1 as [| ? ? Hb F2].
  inversion_clear F2 as [| ? ? Hc F3]. inversion_clear F3 as [| ? ? Hd _].
  repeat split; assumption.
Qed.

Lemma min_T_is_Zmin (a b : Z) : Macros.min_T a b = Z.min a b.
Proof. unfold Macros.min_T. destruct (Z.ltb_spec a b); lia. Qed.

Section OutsideMapFacts.

Context {M : MapAPI}.

Lemma GetTilePixelZOutsideMap_run (x y : Z) :
  GetTilePixelZOutsideMap x y
  = Some (to_int (uint_mul
                    (min4 (to_uint (TileHeightOutsideMap x y))
                          (to_uint (TileHeightOutsideMap (int_add x 1) y))
                          (to_uint (TileHeightOutsideMap x (int_add y 1)))
                          (to_uint (TileHeightOutsideMap (int_add x 1) (int_add y 1))))
                    TILE_HEIGHT),
          outside_reads x y).
Proof.
  unfold GetTilePixelZOutsideMap.
  cbn [bind ret readTileHeightOutsideMap app]. rewrite !min_T_is_Zmin.
  unfold min4, outside_reads. do 4 f_equal. lia.
Qed.

Lemma GetTileMaxPixelZOutsideMap_run (x y : Z) :
  GetTileMaxPixelZOutsideMap x y
  = Some (to_int (uint_mul
                    (max4 (to_uint (TileHeightOutsideMap x y))
                          (to_uint (TileHeightOutsideMap (int_add x 1) y))
                          (to_uint (TileHeightOutsideMap x (int_add y 1)))
                          (to_uint (TileHeightOutsideMap (int_add x 1) (int_add y 1))))
                    TILE_HEIGHT),
          outside_reads x y).
Proof.
  unfold GetTileMaxPixelZOutsideMap.
  cbn [bind ret readTileHeightOutsideMap app]. rewrite !max_is_Zmax.
  unfold max4, outside_reads. do 4 f_equal. lia.
Qed.

Lemma small_height_conversions (v : Z) :
  0 <= v <= INT_MAX -> to_uint v = v /\ to_int v = v.
Proof.
  unfold INT_MAX. intros H. split.
  - apply to_uint_small. unfold is_uint, UINT_MAX. lia.
  - apply to_int_small. unfold is_int, INT_MIN, INT_MAX. lia.
Qed.

Lemma to_int_uint_mul (a b : Z) : to_int (uint_mul a b) = int_mul a b.
Proof. unfold uint_mul, int_mul. apply to_int_to_uint. Qed.

End OutsideMapFacts.

(** X7. When the four outside-map heights around (x, y) are at most
    [INT_MAX], [GetTilePixelZOutsideMap] returns the very pixel height that
    [GetTilePixelSlopeOutsideMap] stores, although one takes the minimum of
    [uint] values and the other of [int] values. *)
Theorem GetTilePixelZOutsideMap_matches_slope_height
  (M : MapAPI) (x y v : Z) :
  Forall (fun t => 0 <= t <= INT_MAX) (outside_heights x y) ->
  exists (s : Slope) (z : Z) (l1 l2 : list Access),
    GetTilePixelSlopeOutsideMap x y (Some v) = Some ((s, Some z), l1)
    /\ GetTilePixelZOutsideMap x y = Some (z, l2).
Proof.
  intros F. apply Forall_four in F. destruct F as (HN & HW & HE & HS).
  apply small_height_conversions in HN, HW, HE, HS.
  destruct HN as [UN IN], HW as [UW IW], HE as [UE IE], HS as [US IS].
  rewrite GetTilePixelSlopeOutsideMap_run, GetTilePixelZOutsideMap_run.
  unfold outsideN, outsideW, outsideE, outsideS.
  rewrite UN, UW, UE, US, IN, IW, IE, IS, to_int_uint_mul. cbn [store].
  do 4 eexists. split; reflexivity.
Qed.

Lemma GetTilePixelZOutsideMap_matches_slope_height_witness :
  Forall (fun t => 0 <= t <= INT_MAX) (@outside_heights Sample.map4x4 2 2)
  /\ exists (s : Slope) (z : Z) (l1 l2 : list Access),
       @GetTilePixelSlopeOutsideMap Sample.map4x4 2 2 (Some 0) = Some ((s, Some z), l1)
       /\ @GetTilePixelZOutsideMap Sample.map4x4 2 2 = Some (z, l2).
Proof.
  assert (F : Forall (fun t => 0 <= t <= INT_MAX) (@outside_heights Sample.map4x4 2 2)).
  { repeat constructor; discriminate. }
  split; [exact F |].
  exact (GetTilePixelZOutsideMap_matches_slope_height Sample.map4x4 2 2 0 F).
Defined.

(** Without that bound the two can differ: a height with the top bit set
    is the least as an [int] and the greatest as a [uint]. *)
Example GetTilePixelZOutsideMap_differs_on_huge_height :
  let M := {| MapSize := 1; MapMaxX := 0; MapMaxY := 0;
              TileX := fun _ => 0; TileY := fun _ => 0;
              TileDiffXY := fun _ _ => 0; IsInnerTile := fun _ => false;
              TileHeight := fun _ => 0;
              TileHeightOutsideMap := fun x _ => if x =? 0 then 2147483648 else 1;
              TILE_HEIGHT := 1 |} in
  @GetTilePixelSlopeOutsideMap M 0 0 (Some 0)
  = Some ((SLOPE_W + SLOPE_S, Some (-2147483648)),
          [ReadOutside 0 0; ReadOutside 1 0; ReadOutside 0 1; ReadOutside 1 1])
  /\ @GetTilePixelZOutsideMap M 0 0
     = Some (1, [ReadOutside 0 0; ReadOutside 1 0; ReadOutside 0 1; ReadOutside 1 1]).
Proof. split; reflexivity. Qed.

(** X8. When the pixel scale is positive and every outside-map height
    around (x, y), scaled, is at most [INT_MAX], the bottom pixel height is
    at most the top pixel height, the slope is flat exactly when they
    coincide, and steep exactly when they differ by two scaled units. *)
Theorem outside_map_slope_and_pixel_heights
  (M : MapAPI) (x y : Z) :
  0 < TILE_HEIGHT ->
  Forall (fun t => 0 <= t /\ t * TILE_HEIGHT <= INT_MAX) (outside_heights x y) ->
  exists (s : Slope) (z zmax : Z) (l1 l2 l3 : list Access),
    GetTilePixelSlopeOutsideMap x y None = Some ((s, None), l1)
    /\ GetTilePixelZOutsideMap x y = Some (z, l2)
    /\ GetTileMaxPixelZOutsideMap x y = Some (zmax, l3)
    /\ z <= zmax
    /\ (s = SLOPE_FLAT <-> zmax = z)
    /\ (has_flag s SLOPE_STEEP = true <-> zmax - z = 2 * TILE_HEIGHT).
Proof.
  intros HT F. apply Forall_four in F.
  destruct F as ((HN0 & HN) & (HW0 & HW) & (HE0 & HE) & (HS0 & HS)).
  assert (Hsmall : forall t, 0 <= t -> t * TILE_HEIGHT <= INT_MAX -> 0 <= t <= INT_MAX)
    by (intros t H0 H1; nia).
  destruct (small_height_conversions _ (Hsmall _ HN0 HN)) as [UN IN].
  destruct (small_height_conversions _ (Hsmall _ HW0 HW)) as [UW IW].
  destruct (small_height_conversions _ (Hsmall _ HE0 HE)) as [UE IE].
  destruct (small_height_conversions _ (Hsmall _ HS0 HS)) as [US IS].
  rewrite GetTilePixelSlopeOutsideMap_run, GetTilePixelZOutsideMap_run,
    GetTileMaxPixelZOutsideMap_run.
  unfold outsideN, outsideW, outsideE, outsideS, slope_of.
  rewrite UN, UW, UE, US, IN, IW, IE, IS, !to_int_uint_mul. cbn [store].
  set (a := TileHeightOutsideMap x y) in *.
  set (b := TileHeightOutsideMap (int_add x 1) y) in *.
  set (c := TileHeightOutsideMap x (int_add y 1)) in *.
  set (d := TileHeightOutsideMap (int_add x 1) (int_add y 1)) in *.
  assert (Hmin : 0 <= min4 a b c d /\ min4 a b c d * TILE_HEIGHT <= INT_MAX)
    by (unfold min4; split; [lia |];
        destruct (min4_attained a b c d) as [E | [E | [E | E]]];
        unfold min4 in E; rewrite <- E; assumption).
  assert (Hmax : 0 <= max4 a b c d /\ max4 a b c d * TILE_HEIGHT <= INT_MAX)
    by (unfold max4; split; [lia |];
        destruct (max4_attained a b c d) as [E | [E | [E | E]]];
        unfold max4 in E; rewrite <- E; assumption).
  assert (Ez : int_mul (min4 a b c d) TILE_HEIGHT = min4 a b c d * TILE_HEIGHT).
  { apply to_int_small. unfold is_int, INT_MIN, INT_MAX in *. nia. }
  assert (Ezmax : int_mul (max4 a b c d) TILE_HEIGHT = max4 a b c d * TILE_HEIGHT).
  { apply to_int_small. unfold is_int, INT_MIN, INT_MAX in *. nia. }
  rewrite Ez, Ezmax.
  do 6 eexists. split; [reflexivity |]. split; [reflexivity |].
  split; [reflexivity |].
  assert (Hle : min4 a b c d <= max4 a b c d) by (unfold min4, max4; lia).
  split; [nia |]. split.
  - rewrite classifier_flat_iff. split.
    + intros (-> & -> & ->).
      replace (max4 a a a a) with a by (unfold max4; lia).
      replace (min4 a a a a) with a by (unfold min4; lia). reflexivity.
    + intros E. assert (E' : max4 a b c d = min4 a b c d) by nia.
      unfold min4, max4 in E'. lia.
  - rewrite classifier_closed_form. cbn [fst]. rewrite mask_of_STEEP, Z.eqb_eq.
    rewrite int_sub_is_2 by (unfold is_int, INT_MIN, INT_MAX, min4, max4 in *; lia).
    split; intros E; nia.
Qed.

Lemma outside_map_slope_and_pixel_heights_witness :
  0 < @TILE_HEIGHT Sample.map4x4
  /\ Forall (fun t => 0 <= t /\ t * @TILE_HEIGHT Sample.map4x4 <= INT_MAX)
            (@outside_heights Sample.map4x4 2 2)
  /\ exists (s : Slope) (z zmax : Z) (l1 l2 l3 : list Access),
       @GetTilePixelSlopeOutsideMap Sample.map4x4 2 2 None = Some ((s, None), l1)
       /\ @GetTilePixelZOutsideMap Sample.map4x4 2 2 = Some (z, l2)
       /\ @GetTileMaxPixelZOutsideMap Sample.map4x4 2 2 = Some (zmax, l3)
       /\ z <= zmax
       /\ (s = SLOPE_FLAT <-> zmax = z)
       /\ (has_flag s SLOPE_STEEP = true <-> zmax - z = 2 * @TILE_HEIGHT Sample.map4x4).
Proof.
  assert (HT : 0 < @TILE_HEIGHT Sample.map4x4) by reflexivity.
  assert (F : Forall (fun t => 0 <= t /\ t * @TILE_HEIGHT Sample.map4x4 <= INT_MAX)
                     (@outside_heights Sample.map4x4 2 2)).
  { repeat constructor; discriminate. }
  split; [exact HT |]. split; [exact F |].
  exact (outside_map_slope_and_pixel_heights Sample.map4x4 2 2 HT F).
Defined.

(** The outside-map scenario of the specification: corner heights
    (1, 1, 1, 3) at pixel scale 8. *)
Example outside_map_scenario :
  @GetTileMaxPixelZOutsideMap Sample.map4x4 2 2
  = Some (24, [ReadOutside 2 2; ReadOutside 3 2; ReadOutside 2 3; ReadOutside 3 3])
  /\ @GetTilePixelZOutsideMap Sample.map4x4 2 2
     = Some (8, [ReadOutside 2 2; ReadOutside 3 2; ReadOutside 2 3; ReadOutside 3 3]).
Proof. split; reflexivity. Qed.

(** ** Packed bit fields: [GB], [SB] and [AB] together *)

Section PackedFieldFacts.

Lemma below_pow2_high_bits (d n k : Z) :
  0 <= d < 2 ^ n -> 0 <= n <= k -> Z.testbit d k = false.
Proof.
  intros Hd Hk. rewrite <- (Z.mod_small d (2 ^ n)) by assumption.
  apply Z.mod_pow2_bits_high. assumption.
Qed.

Lemma is_uint_from_bits (v : Z) :
  (forall k : Z, 32 <= k -> Z.testbit v k = false) -> is_uint v.
Proof.
  intros H. assert (E : v = to_uint v).
  { apply Z.bits_inj'. intros k Hk. rewrite to_uint_bits by assumption.
    destruct (Z.ltb_spec k 32); [reflexivity |]. apply H. assumption. }
  rewrite E. apply to_uint_range.
Qed.

Lemma in_window_cases (s n k : Z) :
  ((s <=? k) && (k <? s + n) = true /\ s <= k < s + n)
  \/ ((s <=? k) && (k <? s + n) = false /\ ~ (s <= k < s + n)).
Proof.
  destruct (Z.leb_spec s k); destruct (Z.ltb_spec k (s + n)); cbn [andb];
    [left | right | right | right]; split; try reflexivity; lia.
Qed.

(** What [SB] computes, bit by bit, for a value [d] that fits the window. *)
Lemma SB_run (x s n d : Z) :
  is_uint x -> 0 <= s < 32 -> 0 <= n < 32 -> s + n <= 32 -> 0 <= d < 2 ^ n ->
  exists x' : Z,
    Macros.SB x s n d = Some x'
    /\ forall k : Z, 0 <= k ->
         Z.testbit x' k
         = if (s <=? k) && (k <? s + n) then Z.testbit d (k - s) else Z.testbit x k.
Proof.
  intros Hx Hs Hn Hsn Hd. unfold Macros.SB.
  rewrite window_mask_run by assumption. cbn [Macros.obind].
  rewrite uint_shl_run by assumption. cbn [Macros.obind].
  eexists. split; [reflexivity |].
  intros k Hk. rewrite (to_uint_small x Hx). unfold uint_not.
  rewrite Z.lor_spec, Z.land_spec, !to_uint_bits by assumption.
  rewrite Z.lnot_spec, window_mask_bits, Z.mul_pow2_bits by lia.
  destruct (in_window_cases s n k) as [[E Hin] | [E Hout]]; rewrite E; cbn [negb].
  - destruct (Z.ltb_spec k 32); [| lia].
    cbn [andb]. rewrite ?andb_false_r. cbn [orb]. reflexivity.
  - assert (Ed : Z.testbit d (k - s) = false).
    { destruct (Z.ltb_spec k s).
      - apply Z.testbit_neg_r. lia.
      - apply (below_pow2_high_bits d n); [assumption | lia]. }
    rewrite Ed.
    destruct (Z.ltb_spec k 32); cbn [andb];
      rewrite ?andb_true_r, ?andb_false_r, ?orb_false_r; try reflexivity.
    symmetry. apply is_uint_high_bits; assumption.
Qed.

(** Two values that agree on the bits of a window have the same window
    value. *)
Lemma window_value_ext (a b s n : Z) :
  0 <= s -> 0 <= n ->
  (forall k : Z, s <= k < s + n -> Z.testbit a k = Z.testbit b k) ->
  (a / 2 ^ s) mod 2 ^ n = (b / 2 ^ s) mod 2 ^ n.
Proof.
  intros Hs Hn H. apply Z.bits_inj'. intros j Hj.
  rewrite !window_value_bits by assumption.
  destruct (Z.ltb_spec j n); [| reflexivity]. cbn [andb]. apply H. lia.
Qed.

Lemma window_value_of_sum (x s n i : Z) :
  0 <= s -> 0 <= n ->
  ((x + i * 2 ^ s) / 2 ^ s) mod 2 ^ n = ((x / 2 ^ s) mod 2 ^ n + i) mod 2 ^ n.
Proof.
  intros Hs Hn.
  assert (Hp : 2 ^ s <> 0) by (apply Z.pow_nonzero; lia).
  assert (Hq : 2 ^ n <> 0) by (apply Z.pow_nonzero; lia).
  rewrite Z.div_add by assumption.
  rewrite Z.add_mod_idemp_l by assumption. reflexivity.
Qed.

End PackedFieldFacts.

(** X9. Writing a value [d] that fits [n] bits with [SB] and reading the
    window back with [GB] gives [d]; every bit outside the window keeps its
    value, so a field read by [GB] from a window that does not overlap is
    unchanged. *)
Theorem SB_then_GB (x s n d : Z) :
  is_uint x -> 0 <= s < 32 -> 0 <= n < 32 -> s + n <= 32 -> 0 <= d < 2 ^ n ->
  exists x' : Z,
    Macros.SB x s n d = Some x'
    /\ is_uint x'
    /\ Macros.GB x' s n = Some d
    /\ (forall k : Z, 0 <= k -> ~ (s <= k < s + n) -> Z.testbit x' k = Z.testbit x k)
    /\ (forall s' n' : Z, 0 <= s' < 32 -> 0 <= n' < 32 ->
        s' + n' <= s \/ s + n <= s' ->
        Macros.GB x' s' n' = Macros.GB x s' n').
Proof.
  intros Hx Hs Hn Hsn Hd.
  destruct (SB_run x s n d Hx Hs Hn Hsn Hd) as (x' & Erun & Hbits).
  assert (Hout : forall k : Z, 0 <= k -> ~ (s <= k < s + n) ->
                 Z.testbit x' k = Z.testbit x k).
  { intros k Hk Hnot. rewrite Hbits by assumption.
    destruct (in_window_cases s n k) as [[E Hin] | [E _]]; [contradiction |].
    rewrite E. reflexivity. }
  assert (Hx' : is_uint x').
  { apply is_uint_from_bits. intros k Hk. rewrite Hout by lia.
    apply is_uint_high_bits; assumption. }
  exists x'. split; [exact Erun |]. split; [exact Hx' |]. split; [| split].
  - rewrite GB_run by assumption. f_equal.
    apply Z.bits_inj'. intros j Hj. rewrite window_value_bits by lia.
    destruct (Z.ltb_spec j n); cbn [andb].
    + rewrite Hbits by lia.
      destruct (in_window_cases s n (j + s)) as [[E _] | [_ Hnot]]; [| lia].
      rewrite E. f_equal. lia.
    + symmetry. apply (below_pow2_high_bits d n); [assumption | lia].
  - exact Hout.
  - intros s' n' Hs' Hn' Hdisj. rewrite !GB_run by assumption. f_equal.
    apply window_value_ext; [lia | lia |]. intros k Hk. apply Hout; lia.
Qed.

Lemma SB_then_GB_witness :
  is_uint 43981 /\ 0 <= 4 < 32 /\ 0 <= 8 < 32 /\ 4 + 8 <= 32 /\ 0 <= 90 < 2 ^ 8
  /\ exists x' : Z,
       Macros.SB 43981 4 8 90 = Some x'
       /\ is_uint x'
       /\ Macros.GB x' 4 8 = Some 90
       /\ (forall k : Z, 0 <= k -> ~ (4 <= k < 4 + 8) ->
           Z.testbit x' k = Z.testbit 43981 k)
       /\ (forall s' n' : Z, 0 <= s' < 32 -> 0 <= n' < 32 ->
           s' + n' <= 4 \/ 4 + 8 <= s' ->
           Macros.GB x' s' n' = Macros.GB 43981 s' n').
Proof.
  assert (Hx : is_uint 43981) by (unfold is_uint, UINT_MAX; lia).
  assert (Hs : 0 <= 4 < 32) by lia.
  assert (Hn : 0 <= 8 < 32) by lia.
  assert (Hsn : 4 + 8 <= 32) by lia.
  assert (Hd : 0 <= 90 < 2 ^ 8) by (cbn; lia).
  split; [exact Hx |]. split; [exact Hs |]. split; [exact Hn |].
  split; [exact Hsn |]. split; [exact Hd |].
  exact (SB_then_GB 43981 4 8 90 Hx Hs Hn Hsn Hd).
Defined.

(** A value too wide for the window spills into the bits above it, as the
    header warns. *)
Example SB_spills_when_value_too_wide : Macros.SB 0 0 4 31 = Some 31.
Proof. reflexivity. Qed.

(** X10. Two additions with [AB] on the same window amount to one addition
    of the sum; in particular adding [i] and then [-i] gives the value
    back. *)
Theorem AB_composes (x s n i j : Z) :
  is_uint x -> 0 <= s < 32 -> 0 <= n < 32 -> s + n <= 32 ->
  exists x1 x2 : Z,
    Macros.AB x s n i = Some x1
    /\ Macros.AB x1 s n j = Some x2
    /\ Macros.AB x s n (i + j) = Some x2
    /\ Macros.AB x1 s n (- i) = Some x.
Proof.
  intros Hx Hs Hn Hsn.
  destruct (AB_run x s n i Hx Hs Hn Hsn) as (x1 & E1 & B1).
  assert (Hx1 : is_uint x1).
  { apply is_uint_from_bits. intros k Hk. rewrite B1 by lia.
    destruct (in_window_cases s n k) as [[_ Hin] | [E _]]; [lia |].
    rewrite E. apply is_uint_high_bits; assumption. }
  assert (Hw1 : (x1 / 2 ^ s) mod 2 ^ n = ((x / 2 ^ s) mod 2 ^ n + i) mod 2 ^ n).
  { rewrite <- window_value_of_sum by lia. apply window_value_ext; [lia | lia |].
    intros k Hk. rewrite B1 by lia.
    destruct (in_window_cases s n k) as [[E _] | [_ Hnot]]; [| lia].
    rewrite E. reflexivity. }
  assert (Hq : 2 ^ n <> 0) by (apply Z.pow_nonzero; lia).
  assert (Hadd : forall (c a : Z) (y : Z),
             Macros.AB x1 s n c = Some y ->
             (forall k : Z, 0 <= k ->
                Z.testbit y k
                = if (s <=? k) && (k <? s + n)
                  then Z.testbit (x1 + c * 2 ^ s) k else Z.testbit x1 k) ->
             (forall k : Z, 0 <= k ->
                Z.testbit a k
                = if (s <=? k) && (k <? s + n)
                  then Z.testbit (x + (i + c) * 2 ^ s) k else Z.testbit x k) ->
             y = a).
  { intros c a y _ By Ba. apply Z.bits_inj'. intros k Hk.
    rewrite By, Ba by assumption.
    destruct (in_window_cases s n k) as [[E Hin] | [E Hnot]]; rewrite E.
    - assert (Wv : forall a0 : Z,
                 Z.testbit a0 k = Z.testbit ((a0 / 2 ^ s) mod 2 ^ n) (k - s)).
      { intros a0. rewrite window_value_bits by lia.
        replace (k - s + s) with k by lia.
        destruct (Z.ltb_spec (k - s) n); [reflexivity | lia]. }
      rewrite (Wv (x1 + c * 2 ^ s)), (Wv (x + (i + c) * 2 ^ s)). f_equal.
      rewrite !window_value_of_sum by lia. rewrite Hw1.
      rewrite Z.add_mod_idemp_l by assumption. f_equal. lia.
    - rewrite B1 by assumption. rewrite E. reflexivity. }
  destruct (AB_run x1 s n j Hx1 Hs Hn Hsn) as (x2 & E2 & B2).
  destruct (AB_run x s n (i + j) Hx Hs Hn Hsn) as (x12 & E12 & B12).
  destruct (AB_run x1 s n (- i) Hx1 Hs Hn Hsn) as (x0 & E0 & B0).
  exists x1, x2. split; [exact E1 |]. split; [exact E2 |]. split.
  - rewrite E12. f_equal. symmetry. exact (Hadd j x12 x2 E2 B2 B12).
  - rewrite E0. f_equal. apply (Hadd (- i) x x0 E0 B0).
    intros k Hk. replace (i + - i) with 0 by lia.
    rewrite Z.mul_0_l, Z.add_0_r.
    destruct ((s <=? k) && (k <? s + n)); reflexivity.
Qed.

Lemma AB_composes_witness :
  is_uint 255 /\ 0 <= 4 < 32 /\ 0 <= 4 < 32 /\ 4 + 4 <= 32
  /\ exists x1 x2 : Z,
       Macros.AB 255 4 4 3 = Some x1
       /\ Macros.AB x1 4 4 9 = Some x2
       /\ Macros.AB 255 4 4 (3 + 9) = Some x2
       /\ Macros.AB x1 4 4 (- 3) = Some 255.
Proof.
  assert (Hx : is_uint 255) by (unfold is_uint, UINT_MAX; lia).
  assert (Hs : 0 <= 4 < 32) by lia.
  assert (Hsn : 4 + 4 <= 32) by lia.
  split; [exact Hx |]. split; [exact Hs |]. split; [exact Hs |].
  split; [exact Hsn |].
  exact (AB_composes 255 4 4 3 9 Hx Hs Hs Hsn).
Defined.

(** ** The single-bit templates *)

Section SingleBitFacts.

Lemma one_bit_run (y : Z) : 0 <= y < 32 -> uint_shl 1 y = Some (2 ^ y).
Proof.
  intros Hy. rewrite uint_shl_run by assumption. rewrite Z.mul_1_l.
  f_equal. apply to_uint_small. pose proof (pow2_lt_32 y Hy).
  unfold is_uint, UINT_MAX. lia.
Qed.

Lemma HASBIT_run (x y : Z) :
  is_uint x -> 0 <= y < 32 -> Macros.HASBIT x y = Some (Z.testbit x y).
Proof.
  intros Hx Hy. unfold Macros.HASBIT. rewrite one_bit_run by assumption.
  cbn [Macros.obind]. rewrite (to_uint_small x Hx). f_equal.
  destruct (Z.testbit x y) eqn:E.
  - apply negb_true_iff, Z.eqb_neq. intros H0.
    assert (Hb : Z.testbit (Z.land x (2 ^ y)) y = true)
      by (rewrite Z.land_spec, E, Z.pow2_bits_true by lia; reflexivity).
    rewrite H0, Z.bits_0 in Hb. discriminate Hb.
  - apply negb_false_iff, Z.eqb_eq. apply Z.bits_inj'. intros k Hk.
    rewrite Z.land_spec, Z.bits_0, Z.pow2_bits_eqb by lia.
    destruct (Z.eqb_spec y k) as [-> | Hne].
    + rewrite E. reflexivity.
    + apply andb_false_r.
Qed.

(** The three updates, bit by bit. *)
Lemma bit_update_run (x y : Z) :
  is_uint x -> 0 <= y < 32 ->
  exists xs xc xt : Z,
    Macros.SETBIT x y = Some xs /\ Macros.CLRBIT x y = Some xc
    /\ Macros.TOGGLEBIT x y = Some xt
    /\ forall k : Z, 0 <= k ->
         Z.testbit xs k = (if k =? y then true else Z.testbit x k)
         /\ Z.testbit xc k = (if k =? y then false else Z.testbit x k)
         /\ Z.testbit xt k = (if k =? y then negb (Z.testbit x k) else Z.testbit x k).
Proof.
  intros Hx Hy. unfold Macros.SETBIT, Macros.CLRBIT, Macros.TOGGLEBIT.
  rewrite one_bit_run by assumption. cbn [Macros.obind].
  rewrite (to_uint_small x Hx). do 3 eexists.
  split; [reflexivity |]. split; [reflexivity |]. split; [reflexivity |].
  intros k Hk. unfold uint_not.
  rewrite Z.lor_spec, Z.land_spec, Z.lxor_spec, to_uint_bits by assumption.
  rewrite Z.lnot_spec, Z.pow2_bits_eqb by lia.
  rewrite (Z.eqb_sym y k).
  destruct (Z.eqb_spec k y) as [-> | Hne]; cbn [negb].
  - destruct (Z.ltb_spec y 32); [| lia].
    rewrite orb_true_r, !andb_false_r, xorb_true_r. repeat split.
  - rewrite orb_false_r, xorb_false_r, andb_true_r.
    destruct (Z.ltb_spec k 32).
    + rewrite andb_true_r. repeat split.
    + rewrite andb_false_r, (is_uint_high_bits x k Hx) by assumption. repeat split.
Qed.

End SingleBitFacts.

(** X11. After [SETBIT] the bit tests as set, after [CLRBIT] as clear and
    after [TOGGLEBIT] as the opposite of before, while [HASBIT] answers as
    before on every other bit position. *)
Theorem bit_update_then_HASBIT (x y : Z) :
  is_uint x -> 0 <= y < 32 ->
  exists (xs xc xt : Z) (b : bool),
    Macros.SETBIT x y = Some xs /\ Macros.CLRBIT x y = Some xc
    /\ Macros.TOGGLEBIT x y = Some xt /\ Macros.HASBIT x y = Some b
    /\ Macros.HASBIT xs y = Some true
    /\ Macros.HASBIT xc y = Some false
    /\ Macros.HASBIT xt y = Some (negb b)
    /\ forall y' : Z, 0 <= y' < 32 -> y' <> y ->
         Macros.HASBIT xs y' = Macros.HASBIT x y'
         /\ Macros.HASBIT xc y' = Macros.HASBIT x y'
         /\ Macros.HASBIT xt y' = Macros.HASBIT x y'.
Proof.
  intros Hx Hy.
  destruct (bit_update_run x y Hx Hy) as (xs & xc & xt & Es & Ec & Et & B).
  assert (Hhigh : forall v : Z,
             (forall k : Z, 0 <= k ->
                Z.testbit v k = Z.testbit x k \/ (k = y)) -> is_uint v).
  { intros v Hv. apply is_uint_from_bits. intros k Hk.
    destruct (Hv k ltac:(lia)) as [E | E]; [| lia].
    rewrite E. apply is_uint_high_bits; assumption. }
  assert (Hcase : forall k : Z, (k =? y) = true /\ k = y \/ (k =? y) = false /\ k <> y).
  { intros k. destruct (Z.eqb_spec k y); [left | right]; split; auto. }
  assert (Hxs : is_uint xs).
  { apply Hhigh. intros k Hk. destruct (B k Hk) as (Bs & _ & _).
    destruct (Hcase k) as [[E ?] | [E ?]]; [right; assumption | left].
    rewrite Bs, E. reflexivity. }
  assert (Hxc : is_uint xc).
  { apply Hhigh. intros k Hk. destruct (B k Hk) as (_ & Bc & _).
    destruct (Hcase k) as [[E ?] | [E ?]]; [right; assumption | left].
    rewrite Bc, E. reflexivity. }
  assert (Hxt : is_uint xt).
  { apply Hhigh. intros k Hk. destruct (B k Hk) as (_ & _ & Bt).
    destruct (Hcase k) as [[E ?] | [E ?]]; [right; assumption | left].
    rewrite Bt, E. reflexivity. }
  exists xs, xc, xt, (Z.testbit x y).
  split; [exact Es |]. split; [exact Ec |]. split; [exact Et |].
  split; [apply HASBIT_run; assumption |].
  destruct (B y ltac:(lia)) as (Bs & Bc & Bt). rewrite Z.eqb_refl in Bs, Bc, Bt.
  rewrite !HASBIT_run by assumption. rewrite Bs, Bc, Bt.
  split; [reflexivity |]. split; [reflexivity |]. split; [reflexivity |].
  intros y' Hy' Hne. rewrite !HASBIT_run by assumption.
  destruct (B y' ltac:(lia)) as (Bs' & Bc' & Bt').
  destruct (Hcase y') as [[E ?] | [E _]]; [contradiction |].
  rewrite E in Bs', Bc', Bt'. rewrite Bs', Bc', Bt'. repeat split.
Qed.

Lemma bit_update_then_HASBIT_witness :
  is_uint 10 /\ 0 <= 2 < 32
  /\ exists (xs xc xt : Z) (b : bool),
       Macros.SETBIT 10 2 = Some xs /\ Macros.CLRBIT 10 2 = Some xc
       /\ Macros.TOGGLEBIT 10 2 = Some xt /\ Macros.HASBIT 10 2 = Some b
       /\ Macros.HASBIT xs 2 = Some true
       /\ Macros.HASBIT xc 2 = Some false
       /\ Macros.HASBIT xt 2 = Some (negb b)
       /\ forall y' : Z, 0 <= y' < 32 -> y' <> 2 ->
            Macros.HASBIT xs y' = Macros.HASBIT 10 y'
            /\ Macros.HASBIT xc y' = Macros.HASBIT 10 y'
            /\ Macros.HASBIT xt y' = Macros.HASBIT 10 y'.
Proof.
  assert (Hx : is_uint 10) by (unfold is_uint, UINT_MAX; lia).
  assert (Hy : 0 <= 2 < 32) by lia.
  split; [exact Hx |]. split; [exact Hy |].
  exact (bit_update_then_HASBIT 10 2 Hx Hy).
Defined.

(** X12. Toggling a bit twice gives the value back; setting or clearing a
    bit twice is doing it once; and the later of a set and a clear of the
    same bit wins. *)
Theorem bit_updates_compose (x y : Z) :
  is_uint x -> 0 <= y < 32 ->
  exists xs xc xt : Z,
    Macros.SETBIT x y = Some xs /\ Macros.CLRBIT x y = Some xc
    /\ Macros.TOGGLEBIT x y = Some xt
    /\ Macros.TOGGLEBIT xt y = Some x
    /\ Macros.SETBIT xs y = Some xs
    /\ Macros.CLRBIT xc y = Some xc
    /\ Macros.CLRBIT xs y = Some xc
    /\ Macros.SETBIT xc y = Some xs.
Proof.
  intros Hx Hy.
  destruct (bit_update_run x y Hx Hy) as (xs & xc & xt & Es & Ec & Et & B).
  assert (Huint : forall v : Z,
             (forall k : Z, 32 <= k -> Z.testbit v k = Z.testbit x k) -> is_uint v).
  { intros v Hv. apply is_uint_from_bits. intros k Hk.
    rewrite Hv by assumption. apply is_uint_high_bits; assumption. }
  assert (Hne : forall k : Z, 32 <= k -> (k =? y) = false)
    by (intros k Hk; apply Z.eqb_neq; lia).
  assert (Hxs : is_uint xs).
  { apply Huint. intros k Hk. destruct (B k ltac:(lia)) as (Bs & _ & _).
    rewrite Bs, Hne by assumption. reflexivity. }
  assert (Hxc : is_uint xc).
  { apply Huint. intros k Hk. destruct (B k ltac:(lia)) as (_ & Bc & _).
    rewrite Bc, Hne by assumption. reflexivity. }
  assert (Hxt : is_uint xt).
  { apply Huint. intros k Hk. destruct (B k ltac:(lia)) as (_ & _ & Bt).
    rewrite Bt, Hne by assumption. reflexivity. }
  destruct (bit_update_run xs y Hxs Hy) as (xss & xsc & xst & Ess & Esc & _ & Bxs).
  destruct (bit_update_run xc y Hxc Hy) as (xcs & xcc & xct & Ecs & Ecc & _ & Bxc).
  destruct (bit_update_run xt y Hxt Hy) as (xts & xtc & xtt & _ & _ & Ett & Bxt).
  exists xs, xc, xt.
  split; [exact Es |]. split; [exact Ec |]. split; [exact Et |].
  assert (Heq : forall u w : Z,
             (forall k : Z, 0 <= k -> Z.testbit u k = Z.testbit w k) ->
             Some u = Some w)
    by (intros u w H; f_equal; apply Z.bits_inj'; exact H).
  rewrite Ett, Ess, Ecc, Esc, Ecs.
  repeat split; apply Heq; intros k Hk;
    destruct (B k Hk) as (Bs & Bc & Bt);
    destruct (Bxs k Hk) as (Bss & Bsc & _);
    destruct (Bxc k Hk) as (Bcs & Bcc & _);
    destruct (Bxt k Hk) as (_ & _ & Btt);
    rewrite ?Btt, ?Bss, ?Bcc, ?Bsc, ?Bcs, ?Bs, ?Bc, ?Bt;
    destruct (k =? y); rewrite ?negb_involutive; reflexivity.
Qed.

Lemma bit_updates_compose_witness :
  is_uint 10 /\ 0 <= 2 < 32
  /\ exists xs xc xt : Z,
       Macros.SETBIT 10 2 = Some xs /\ Macros.CLRBIT 10 2 = Some xc
       /\ Macros.TOGGLEBIT 10 2 = Some xt
       /\ Macros.TOGGLEBIT xt 2 = Some 10
       /\ Macros.SETBIT xs 2 = Some xs
       /\ Macros.CLRBIT xc 2 = Some xc
       /\ Macros.CLRBIT xs 2 = Some xc
       /\ Macros.SETBIT xc 2 = Some xs.
Proof.
  assert (Hx : is_uint 10) by (unfold is_uint, UINT_MAX; lia).
  assert (Hy : 0 <= 2 < 32) by lia.
  split; [exact Hx |]. split; [exact Hy |].
  exact (bit_updates_compose 10 2 Hx Hy).
Defined.

(** ** Clamping *)

(** X13. With [min <= max], [clamp] and [clampu] return a value of the
    interval, return [a] itself when it lies in the interval, and otherwise
    the point of the interval nearest to [a]. *)
Theorem clamp_is_nearest_in_interval (a min max : Z) :
  min <= max ->
  (min <= Macros.clamp a min max <= max)
  /\ (min <= a <= max -> Macros.clamp a min max = a)
  /\ (forall v : Z, min <= v <= max ->
      Z.abs (Macros.clamp a min max - a) <= Z.abs (v - a))
  /\ Macros.clampu a min max = Macros.clamp a min max.
Proof.
  intros Hle. unfold Macros.clampu, Macros.clamp. rewrite Z.geb_leb.
  destruct (Z.leb_spec a min); destruct (Z.leb_spec max a);
    repeat split; intros; lia.
Qed.

Lemma clamp_is_nearest_in_interval_witness :
  0 <= 15 /\ (0 <= Macros.clamp 20 0 15 <= 15)
  /\ (0 <= 20 <= 15 -> Macros.clamp 20 0 15 = 20)
  /\ (forall v : Z, 0 <= v <= 15 ->
      Z.abs (Macros.clamp 20 0 15 - 20) <= Z.abs (v - 20))
  /\ Macros.clampu 20 0 15 = Macros.clamp 20 0 15.
Proof.
  assert (H : 0 <= 15) by lia.
  split; [exact H |]. exact (clamp_is_nearest_in_interval 20 0 15 H).
Defined.

(** With the bounds the wrong way round the result can leave both
    intervals' interior, as the header warns. *)
Example clamp_with_swapped_bounds : Macros.clamp 5 10 0 = 10.
Proof. reflexivity. Qed.

(** X14. [ClampToI32] saturates: it returns the value of the [int32] range
    nearest to its 64-bit argument, which is the argument itself when that
    fits. *)
Theorem ClampToI32_saturates (a : Z) :
  Macros.ClampToI32 a = Z.max INT_MIN (Z.min INT_MAX a)
  /\ is_int (Macros.ClampToI32 a)
  /\ (is_int a -> Macros.ClampToI32 a = a).
Proof.
  assert (E : Macros.ClampToI32 a = Z.max INT_MIN (Z.min INT_MAX a)).
  { unfold Macros.ClampToI32.
    change (to_int 2147483648) with INT_MIN.
    change (to_int 2147483647) with INT_MAX.
    rewrite Z.geb_leb.
    destruct (Z.leb_spec a INT_MIN); [unfold INT_MIN, INT_MAX in *; lia |].
    destruct (Z.leb_spec INT_MAX a); [unfold INT_MIN, INT_MAX in *; lia |].
    rewrite to_int_small by (unfold is_int; lia).
    unfold INT_MIN, INT_MAX in *. lia. }
  split; [exact E |]. rewrite E. unfold is_int, INT_MIN, INT_MAX.
  split; [lia |]. intros H. lia.
Qed.

Lemma ClampToI32_saturates_witness :
  is_int 5 /\ Macros.ClampToI32 5 = 5
  /\ Macros.ClampToI32 5000000000 = INT_MAX
  /\ Macros.ClampToI32 (-5000000000) = INT_MIN.
Proof.
  assert (H5 : is_int 5) by (unfold is_int, INT_MIN, INT_MAX; lia).
  split; [exact H5 |]. split.
  - exact (proj2 (proj2 (ClampToI32_saturates 5)) H5).
  - split; reflexivity.
Defined.

(** ** Fixed-point multiplication *)

Section FixedPointFacts.

Lemma to_uint64_small (z : Z) :
  0 <= z < 18446744073709551616 -> to_uint64 z = z.
Proof. intros H. unfold to_uint64. apply Z.mod_small. assumption. Qed.

Lemma to_int64_small (z : Z) :
  - 9223372036854775808 <= z < 9223372036854775808 -> to_int64 z = z.
Proof. intros H. unfold to_int64. rewrite Z.mod_small by lia. lia. Qed.

Lemma scaled_down_le (a b shift : Z) :
  0 <= a -> 0 <= b <= 2 ^ shift -> 0 <= shift ->
  0 <= a * b / 2 ^ shift <= a.
Proof.
  intros Ha Hb Hs.
  assert (Hp : 0 < 2 ^ shift) by (apply Z.pow_pos_nonneg; lia).
  split.
  - apply Z.div_pos; [nia | assumption].
  - apply Z.div_le_upper_bound; [assumption | nia].
Qed.

End FixedPointFacts.

(** X15. For 32-bit unsigned operands and a factor [b] of at most
    [2^shift] (a fraction of at most one), [BIGMULUS] returns the exact
    quotient [a * b / 2^shift], which never exceeds [a]; the factor
    [2^shift] itself gives [a] back. *)
Theorem BIGMULUS_scales_down (a b shift : Z) :
  is_uint a -> is_uint b -> 0 <= shift < 64 -> b <= 2 ^ shift ->
  exists r : Z,
    Macros.BIGMULUS a b shift = Some r
    /\ r = a * b / 2 ^ shift
    /\ 0 <= r <= a
    /\ (b = 2 ^ shift -> r = a).
Proof.
  unfold is_uint, UINT_MAX. intros Ha Hb Hs Hle. unfold Macros.BIGMULUS.
  destruct (Z.leb_spec 0 shift); [| lia]. destruct (Z.ltb_spec shift 64); [| lia].
  cbn [andb]. eexists. split; [reflexivity |].
  rewrite to_uint64_small by nia.
  rewrite Z.shiftr_div_pow2 by lia.
  pose proof (scaled_down_le a b shift ltac:(lia) ltac:(lia) ltac:(lia)) as Hr.
  rewrite to_uint_small by (unfold is_uint, UINT_MAX; lia).
  split; [reflexivity |]. split; [exact Hr |].
  intros ->. apply Z.div_mul. apply Z.pow_nonzero; lia.
Qed.

Lemma BIGMULUS_scales_down_witness :
  is_uint 1000 /\ is_uint 49152 /\ 0 <= 16 < 64 /\ 49152 <= 2 ^ 16
  /\ exists r : Z,
       Macros.BIGMULUS 1000 49152 16 = Some r
       /\ r = 1000 * 49152 / 2 ^ 16
       /\ 0 <= r <= 1000
       /\ (49152 = 2 ^ 16 -> r = 1000).
Proof.
  assert (Ha : is_uint 1000) by (unfold is_uint, UINT_MAX; lia).
  assert (Hb : is_uint 49152) by (unfold is_uint, UINT_MAX; lia).
  assert (Hs : 0 <= 16 < 64) by lia.
  assert (Hle : 49152 <= 2 ^ 16) by (cbn; lia).
  split; [exact Ha |]. split; [exact Hb |]. split; [exact Hs |].
  split; [exact Hle |].
  exact (BIGMULUS_scales_down 1000 49152 16 Ha Hb Hs Hle).
Defined.

(** X16. For 32-bit signed operands and a factor [b] between 0 and
    [2^shift], [BIGMULSS] returns the quotient [a * b / 2^shift] rounded
    towards minus infinity; the result lies between 0 and [a], on the side
    of [a], and the factor [2^shift] gives [a] back. *)
Theorem BIGMULSS_scales_down (a b shift : Z) :
  is_int a -> is_int b -> 0 <= shift < 64 -> 0 <= b <= 2 ^ shift ->
  exists r : Z,
    Macros.BIGMULSS a b shift = Some r
    /\ r = a * b / 2 ^ shift
    /\ Z.min 0 a <= r <= Z.max 0 a
    /\ (b = 2 ^ shift -> r = a).
Proof.
  unfold is_int, INT_MIN, INT_MAX. intros Ha Hb Hs Hle. unfold Macros.BIGMULSS.
  destruct (Z.leb_spec 0 shift); [| lia]. destruct (Z.ltb_spec shift 64); [| lia].
  cbn [andb]. eexists. split; [reflexivity |].
  rewrite to_int64_small by nia.
  rewrite Z.shiftr_div_pow2 by lia.
  assert (Hp : 0 < 2 ^ shift) by (apply Z.pow_pos_nonneg; lia).
  assert (Hr : Z.min 0 a <= a * b / 2 ^ shift <= Z.max 0 a).
  { destruct (Z.le_gt_cases 0 a).
    - pose proof (scaled_down_le a b shift ltac:(lia) ltac:(lia) ltac:(lia)). lia.
    - split.
      + apply Z.div_le_lower_bound; [assumption | nia].
      + apply Z.div_le_upper_bound; [assumption | nia]. }
  rewrite to_int_small by (unfold is_int, INT_MIN, INT_MAX; lia).
  split; [reflexivity |]. split; [exact Hr |].
  intros ->. apply Z.div_mul. apply Z.pow_nonzero; lia.
Qed.

Lemma BIGMULSS_scales_down_witness :
  is_int (-1000) /\ is_int 49152 /\ 0 <= 16 < 64 /\ 0 <= 49152 <= 2 ^ 16
  /\ exists r : Z,
       Macros.BIGMULSS (-1000) 49152 16 = Some r
       /\ r = -1000 * 49152 / 2 ^ 16
       /\ Z.min 0 (-1000) <= r <= Z.max 0 (-1000)
       /\ (49152 = 2 ^ 16 -> r = -1000).
Proof.
  assert (Ha : is_int (-1000)) by (unfold is_int, INT_MIN, INT_MAX; lia).
  assert (Hb : is_int 49152) by (unfold is_int, INT_MIN, INT_MAX; lia).
  assert (Hs : 0 <= 16 < 64) by lia.
  assert (Hle : 0 <= 49152 <= 2 ^ 16) by (cbn; lia).
  split; [exact Ha |]. split; [exact Hb |]. split; [exact Hs |].
  split; [exact Hle |].
  exact (BIGMULSS_scales_down (-1000) 49152 16 Ha Hb Hs Hle).
Defined.

(** ** Interval tests by unsigned comparison *)

Section IntervalFacts.

Lemma to_uint_to_int (z : Z) : to_uint (to_int z) = to_uint z.
Proof.
  apply to_uint_eq_iff_to_int_eq. apply to_int_small, to_int_range.
Qed.

(** The unsigned reading of a difference: itself when it is not negative,
    moved up by 2^32 when it is. *)
Lemma to_uint_of_difference (d : Z) :
  - 4294967296 <= d < 4294967296 ->
  to_uint d = if d <? 0 then d + 4294967296 else d.
Proof.
  intros H. unfold to_uint. destruct (Z.ltb_spec d 0).
  - symmetry. apply (Z.mod_unique d 4294967296 (-1)); lia.
  - apply Z.mod_small. lia.
Qed.

Lemma to_uint8_of_difference (d : Z) :
  - 256 <= d < 256 -> to_uint8 d = if d <? 0 then d + 256 else d.
Proof.
  intros H. unfold to_uint8. destruct (Z.ltb_spec d 0).
  - symmetry. apply (Z.mod_unique d 256 (-1)); lia.
  - apply Z.mod_small. lia.
Qed.

End IntervalFacts.

(** X17. When [x - base] does not overflow and [size] is a non-negative
    [int], [IS_INSIDE_1D] holds exactly when [base <= x < base + size]; if
    moreover [base + size] does not overflow it answers as the plain
    two-comparison test it replaces. *)
Theorem IS_INSIDE_1D_is_the_interval_test (x base size : Z) :
  is_int (x - base) -> 0 <= size <= INT_MAX ->
  (Macros.IS_INSIDE_1D x base size = true <-> base <= x < base + size)
  /\ (is_int (base + size) ->
      Macros.IS_INSIDE_1D x base size = Macros.IS_INSIDE_1D_plain x base size).
Proof.
  unfold is_int, INT_MIN, INT_MAX. intros Hd Hs.
  assert (E : Macros.IS_INSIDE_1D x base size = true <-> base <= x < base + size).
  { unfold Macros.IS_INSIDE_1D, int_sub. rewrite to_uint_to_int.
    rewrite (to_uint_of_difference (x - base)) by lia.
    rewrite (to_uint_of_difference size) by lia.
    rewrite Z.ltb_lt.
    destruct (Z.ltb_spec (x - base) 0); destruct (Z.ltb_spec size 0); lia. }
  split; [exact E |]. intros Hsum.
  unfold Macros.IS_INSIDE_1D_plain, int_add.
  rewrite (to_int_small (base + size)) by (unfold is_int, INT_MIN, INT_MAX; lia).
  rewrite Z.geb_leb.
  destruct (Macros.IS_INSIDE_1D x base size) eqn:Ev.
  - destruct E as [E _]. specialize (E eq_refl). symmetry.
    apply andb_true_iff. split; [apply Z.leb_le | apply Z.ltb_lt]; lia.
  - symmetry. apply not_true_iff_false. intros Ht.
    apply andb_true_iff in Ht. destruct Ht as [H1 H2].
    apply Z.leb_le in H1. apply Z.ltb_lt in H2.
    destruct E as [_ E]. specialize (E ltac:(lia)). discriminate E.
Qed.

Lemma IS_INSIDE_1D_is_the_interval_test_witness :
  is_int (12 - 10) /\ 0 <= 5 <= INT_MAX
  /\ (Macros.IS_INSIDE_1D 12 10 5 = true <-> 10 <= 12 < 10 + 5)
  /\ (is_int (10 + 5) ->
      Macros.IS_INSIDE_1D 12 10 5 = Macros.IS_INSIDE_1D_plain 12 10 5).
Proof.
  assert (Hd : is_int (12 - 10)) by (unfold is_int, INT_MIN, INT_MAX; lia).
  assert (Hs : 0 <= 5 <= INT_MAX) by (unfold INT_MAX; lia).
  split; [exact Hd |]. split; [exact Hs |].
  exact (IS_INSIDE_1D_is_the_interval_test 12 10 5 Hd Hs).
Defined.

(** Where [x - base] overflows the unsigned test accepts a value below the
    base. *)
Example IS_INSIDE_1D_on_overflowing_difference :
  Macros.IS_INSIDE_1D (-2147483648) 2147483647 5 = true
  /\ Macros.IS_INSIDE_1D_plain (-2147483648) 2147483647 5 = false.
Proof. split; reflexivity. Qed.

(** X18. For [int] operands with [min <= max], [IS_INT_INSIDE] holds
    exactly when [min <= a < max], even where the differences wrap; for
    byte operands with [min <= max], [IS_BYTE_INSIDE] does the same. *)
Theorem IS_INT_INSIDE_and_IS_BYTE_INSIDE (a min max : Z) :
  min <= max ->
  (is_int a -> is_int min -> is_int max ->
   (Macros.IS_INT_INSIDE a min max = true <-> min <= a < max))
  /\ (is_uint8 a -> is_uint8 min -> is_uint8 max ->
      (Macros.IS_BYTE_INSIDE a min max = true <-> min <= a < max)).
Proof.
  intros Hle. split.
  - unfold is_int, INT_MIN, INT_MAX. intros Ha Hmin Hmax.
    unfold Macros.IS_INT_INSIDE, int_sub. rewrite !to_uint_to_int.
    rewrite (to_uint_of_difference (a - min)) by lia.
    rewrite (to_uint_of_difference (max - min)) by lia.
    rewrite Z.ltb_lt.
    destruct (Z.ltb_spec (a - min) 0); destruct (Z.ltb_spec (max - min) 0); lia.
  - unfold is_uint8. intros Ha Hmin Hmax.
    unfold Macros.IS_BYTE_INSIDE, int_sub.
    rewrite !to_int_small by (unfold is_int, INT_MIN, INT_MAX; lia).
    rewrite (to_uint8_of_difference (a - min)) by lia.
    rewrite (to_uint8_of_difference (max - min)) by lia.
    rewrite Z.ltb_lt.
    destruct (Z.ltb_spec (a - min) 0); destruct (Z.ltb_spec (max - min) 0); lia.
Qed.

Lemma IS_INT_INSIDE_and_IS_BYTE_INSIDE_witness :
  3 <= 200
  /\ (Macros.IS_INT_INSIDE 2 3 200 = true <-> 3 <= 2 < 200)
  /\ (Macros.IS_BYTE_INSIDE 2 3 200 = true <-> 3 <= 2 < 200).
Proof.
  assert (Hle : 3 <= 200) by lia.
  destruct (IS_INT_INSIDE_and_IS_BYTE_INSIDE 2 3 200 Hle) as [Hint Hbyte].
  split; [exact Hle |]. split.
  - apply Hint; unfold is_int, INT_MIN, INT_MAX; lia.
  - apply Hbyte; unfold is_uint8; lia.
Defined.

(** With [min > max] the interval is empty, yet the tests accept [min]. *)
Example IS_INT_INSIDE_with_swapped_bounds :
  Macros.IS_INT_INSIDE 7 7 3 = true /\ Macros.IS_BYTE_INSIDE 7 7 3 = true.
Proof. split; reflexivity. Qed.

(** ** [CHANCE16I] *)

(** X19. For [0 <= a < b] with [65536 * a] within [int], [CHANCE16I] holds
    exactly when the low 16 bits of [v], multiplied by [b], are at most
    [65536 * a]: the test passes for [floor(65536 * a / b) + 1] of the
    65536 values of [v]. *)
Theorem CHANCE16I_threshold (a b v : Z) :
  0 <= a < b -> a <= 32767 -> b <= INT_MAX ->
  exists r : bool,
    Macros.CHANCE16I a b v = Some r
    /\ (r = true <-> to_uint16 v * b <= 65536 * a)
    /\ (r = true <-> to_uint16 v <= 65536 * a / b).
Proof.
  unfold INT_MAX. intros Ha Ha' Hb. unfold Macros.CHANCE16I.
  destruct (Z.eqb_spec b 0); [lia |]. eexists. split; [reflexivity |].
  unfold int_mul. rewrite (to_int_small (65536 * a))
    by (unfold is_int, INT_MIN, INT_MAX; lia).
  rewrite Z.quot_div_nonneg by lia.
  assert (Hq : 0 <= 65536 * a / b < 65536).
  { split.
    - apply Z.div_pos; lia.
    - apply Z.div_lt_upper_bound; nia. }
  rewrite to_int_small by (unfold is_int, INT_MIN, INT_MAX; lia).
  assert (E16 : to_uint16 (65536 * a / b) = 65536 * a / b)
    by (apply Z.mod_small; lia).
  rewrite E16, Z.leb_le.
  assert (Hv : 0 <= to_uint16 v < 65536)
    by (unfold to_uint16; apply Z.mod_pos_bound; lia).
  split; [| reflexivity]. split.
  - intros H. pose proof (Z.mul_div_le (65536 * a) b ltac:(lia)). nia.
  - intros H. apply Z.div_le_lower_bound; lia.
Qed.

Lemma CHANCE16I_threshold_witness :
  0 <= 1 < 4 /\ 1 <= 32767 /\ 4 <= INT_MAX
  /\ exists r : bool,
       Macros.CHANCE16I 1 4 16384 = Some r
       /\ (r = true <-> to_uint16 16384 * 4 <= 65536 * 1)
       /\ (r = true <-> to_uint16 16384 <= 65536 * 1 / 4).
Proof.
  assert (Ha : 0 <= 1 < 4) by lia.
  assert (Ha' : 1 <= 32767) by lia.
  assert (Hb : 4 <= INT_MAX) by (unfold INT_MAX; lia).
  split; [exact Ha |]. split; [exact Ha' |]. split; [exact Hb |].
  exact (CHANCE16I_threshold 1 4 16384 Ha Ha' Hb).
Defined.

(** For [a = b] the threshold 65536 does not fit 16 bits and wraps to 0:
    the test then passes for [v = 0] alone. *)
Example CHANCE16I_certain_chance_wraps :
  Macros.CHANCE16I 1 1 0 = Some true /\ Macros.CHANCE16I 1 1 1 = Some false
  /\ Macros.CHANCE16I 1 1 65535 = Some false.
Proof. repeat split. Qed.

(** ** [ALIGN] *)

(** X20. For [n] a power of two and [x + n - 1] within [uint], [ALIGN]
    returns the smallest multiple of [n] that is at least [x]. *)
Theorem ALIGN_rounds_up_to_multiple (x k : Z) :
  is_uint x -> 0 <= k < 32 -> x + 2 ^ k - 1 <= UINT_MAX ->
  Macros.ALIGN x (2 ^ k) mod 2 ^ k = 0
  /\ x <= Macros.ALIGN x (2 ^ k) < x + 2 ^ k
  /\ (forall m : Z, m mod 2 ^ k = 0 -> x <= m -> Macros.ALIGN x (2 ^ k) <= m).
Proof.
  intros Hx Hk Hfit. pose proof (pow2_lt_32 k Hk) as Hp.
  set (n := 2 ^ k) in *. set (y := x + n - 1).
  assert (Hy : is_uint y) by (unfold is_uint, UINT_MAX, y in *; lia).
  assert (Ey : uint_sub (uint_add x n) 1 = y).
  { unfold uint_sub, uint_add, to_uint.
    rewrite Zminus_mod_idemp_l. fold (to_uint (x + n - 1)).
    apply to_uint_small. exact Hy. }
  assert (En : uint_sub n 1 = Z.ones k).
  { unfold uint_sub. rewrite to_uint_small by (unfold is_uint, UINT_MAX; lia).
    rewrite Z.ones_equiv. unfold n. lia. }
  assert (E : Macros.ALIGN x n = n * (y / n)).
  { unfold Macros.ALIGN. rewrite Ey, En.
    transitivity (Z.ldiff y (Z.ones k)).
    - apply Z.bits_inj'. intros j Hj. unfold uint_not.
      rewrite Z.land_spec, Z.ldiff_spec, to_uint_bits, Z.lnot_spec by assumption.
      destruct (Z.ltb_spec j 32); [reflexivity |].
      rewrite (is_uint_high_bits y j Hy) by assumption. reflexivity.
    - rewrite Z.ldiff_ones_r, Z.shiftl_mul_pow2, Z.shiftr_div_pow2 by lia.
      fold n. lia. }
  rewrite E.
  pose proof (Z.mul_div_le y n ltac:(lia)) as Hlo.
  pose proof (Z.mod_pos_bound y n ltac:(lia)) as Hmod.
  pose proof (Z.div_mod y n ltac:(lia)) as Hdm.
  split; [| split].
  - rewrite Z.mul_comm. apply Z.mod_mul. lia.
  - unfold y in *. lia.
  - intros m Hm Hxm.
    pose proof (Z.div_mod m n ltac:(lia)) as Hmd. rewrite Hm in Hmd.
    assert (Hc : y / n <= m / n); [| nia].
    destruct (Z.le_gt_cases (y / n) (m / n)) as [Hle | Hgt]; [exact Hle |].
    exfalso. unfold y in *. nia.
Qed.

Lemma ALIGN_rounds_up_to_multiple_witness :
  is_uint 13 /\ 0 <= 3 < 32 /\ 13 + 2 ^ 3 - 1 <= UINT_MAX
  /\ Macros.ALIGN 13 (2 ^ 3) mod 2 ^ 3 = 0
  /\ 13 <= Macros.ALIGN 13 (2 ^ 3) < 13 + 2 ^ 3
  /\ (forall m : Z, m mod 2 ^ 3 = 0 -> 13 <= m -> Macros.ALIGN 13 (2 ^ 3) <= m).
Proof.
  assert (Hx : is_uint 13) by (unfold is_uint, UINT_MAX; lia).
  assert (Hk : 0 <= 3 < 32) by lia.
  assert (Hfit : 13 + 2 ^ 3 - 1 <= UINT_MAX) by (unfold UINT_MAX; cbn; lia).
  split; [exact Hx |]. split; [exact Hk |]. split; [exact Hfit |].
  exact (ALIGN_rounds_up_to_multiple 13 3 Hx Hk Hfit).
Defined.

(** For an [n] that is no power of two the result need not be a multiple
    of [n]. *)
Example ALIGN_on_non_power_of_two : Macros.ALIGN 5 3 = 5.
Proof. reflexivity. Qed.

(** ** Rotations *)

Section RotationFacts.

Lemma ROL_run (x n : Z) :
  is_uint x -> 0 < n < 32 ->
  exists r : Z,
    Macros.ROL x n = Some r
    /\ forall k : Z, 0 <= k ->
         Z.testbit r k
         = (k <? 32) && (if n <=? k then Z.testbit x (k - n)
                         else Z.testbit x (k + 32 - n)).
Proof.
  intros Hx Hn. unfold Macros.ROL.
  rewrite uint_shl_run, uint_shr_run by lia. cbn [Macros.obind].
  rewrite (to_uint_small x Hx). eexists. split; [reflexivity |].
  intros k Hk.
  rewrite Z.lor_spec, to_uint_bits, Z.mul_pow2_bits, Z.div_pow2_bits by lia.
  replace (k + (4 * 8 - n)) with (k + 32 - n) by lia.
  destruct (Z.ltb_spec k 32); destruct (Z.leb_spec n k); cbn [andb].
  - rewrite (is_uint_high_bits x (k + 32 - n) Hx) by lia. apply orb_false_r.
  - rewrite (Z.testbit_neg_r x (k - n)) by lia. reflexivity.
  - apply is_uint_high_bits; [assumption | lia].
  - lia.
Qed.

Lemma ROR_run (x n : Z) :
  is_uint x -> 0 < n < 32 ->
  exists r : Z,
    Macros.ROR x n = Some r
    /\ forall k : Z, 0 <= k ->
         Z.testbit r k
         = (k <? 32) && (if k + n <? 32 then Z.testbit x (k + n)
                         else Z.testbit x (k + n - 32)).
Proof.
  intros Hx Hn. unfold Macros.ROR.
  rewrite uint_shl_run, uint_shr_run by lia. cbn [Macros.obind].
  rewrite (to_uint_small x Hx). eexists. split; [reflexivity |].
  intros k Hk.
  rewrite Z.lor_spec, to_uint_bits, Z.mul_pow2_bits, Z.div_pow2_bits by lia.
  replace (k - (4 * 8 - n)) with (k + n - 32) by lia.
  destruct (Z.ltb_spec k 32); destruct (Z.ltb_spec (k + n) 32); cbn [andb]; try lia.
  - rewrite (Z.testbit_neg_r x (k + n - 32)) by lia. apply orb_false_r.
  - rewrite (is_uint_high_bits x (k + n) Hx) by lia. reflexivity.
  - rewrite (is_uint_high_bits x (k + n) Hx) by lia. reflexivity.
Qed.

End RotationFacts.

(** X21. For a 32-bit value and a rotation count from 1 to 31, [ROL] moves
    bit [k] to position [(k + n) mod 32], and [ROR] by the same count
    undoes it. *)
Theorem ROL_then_ROR (x n : Z) :
  is_uint x -> 0 < n < 32 ->
  exists r : Z,
    Macros.ROL x n = Some r
    /\ is_uint r
    /\ (forall k : Z, 0 <= k < 32 ->
        Z.testbit r ((k + n) mod 32) = Z.testbit x k)
    /\ Macros.ROR r n = Some x.
Proof.
  intros Hx Hn.
  destruct (ROL_run x n Hx Hn) as (r & Er & Br).
  assert (Hr : is_uint r).
  { apply is_uint_from_bits. intros k Hk. rewrite Br by lia.
    destruct (Z.ltb_spec k 32); [lia | reflexivity]. }
  destruct (ROR_run r n Hr Hn) as (x' & Ex' & Bx').
  exists r. split; [exact Er |]. split; [exact Hr |]. split.
  - intros k Hk.
    assert (Hm : 0 <= (k + n) mod 32 < 32) by (apply Z.mod_pos_bound; lia).
    rewrite Br by lia.
    destruct (Z.ltb_spec ((k + n) mod 32) 32); [| lia]. cbn [andb].
    destruct (Z.lt_ge_cases (k + n) 32) as [Hlt | Hge].
    + rewrite Z.mod_small by lia.
      destruct (Z.leb_spec n (k + n)); [| lia]. f_equal. lia.
    + assert (Em : (k + n) mod 32 = k + n - 32).
      { symmetry. apply (Z.mod_unique (k + n) 32 1); lia. }
      rewrite Em. destruct (Z.leb_spec n (k + n - 32)); [lia |]. f_equal. lia.
  - rewrite Ex'. f_equal. apply Z.bits_inj'. intros k Hk.
    rewrite Bx' by assumption.
    destruct (Z.ltb_spec k 32); cbn [andb].
    + destruct (Z.ltb_spec (k + n) 32); rewrite Br by lia.
      * destruct (Z.ltb_spec (k + n) 32); [| lia]. cbn [andb].
        destruct (Z.leb_spec n (k + n)); [| lia]. f_equal. lia.
      * destruct (Z.ltb_spec (k + n - 32) 32); [| lia]. cbn [andb].
        destruct (Z.leb_spec n (k + n - 32)); [lia |]. f_equal. lia.
    + symmetry. apply is_uint_high_bits; assumption.
Qed.

Lemma ROL_then_ROR_witness :
  is_uint 2147483649 /\ 0 < 4 < 32
  /\ exists r : Z,
       Macros.ROL 2147483649 4 = Some r
       /\ is_uint r
       /\ (forall k : Z, 0 <= k < 32 ->
           Z.testbit r ((k + 4) mod 32) = Z.testbit 2147483649 k)
       /\ Macros.ROR r 4 = Some 2147483649.
Proof.
  assert (Hx : is_uint 2147483649) by (unfold is_uint, UINT_MAX; lia).
  assert (Hn : 0 < 4 < 32) by lia.
  split; [exact Hx |]. split; [exact Hn |].
  exact (ROL_then_ROR 2147483649 4 Hx Hn).
Defined.

(** A rotation by 0 shifts by the full width on its other side, which has
    no defined result. *)
Example ROL_by_zero_undefined : Macros.ROL 1 0 = None /\ Macros.ROR 1 0 = None.
Proof. split; reflexivity. Qed.

(** ** Counting bits *)

Section CountBitsFacts.

(** The set bits among positions [start .. start + width - 1]. *)
Lemma bits_from_shift (v : Z) (width start : nat) :
  length (filter (Z.testbit v) (map Z.of_nat (seq (S start) width)))
  = length (filter (Z.testbit (v / 2)) (map Z.of_nat (seq start width))).
Proof.
  revert start. induction width as [| w IH]; intros start; [reflexivity |].
  cbn [seq map filter].
  rewrite Nat2Z.inj_succ, <- Z.div2_bits by apply Nat2Z.is_nonneg.
  destruct (Z.testbit (v / 2) (Z.of_nat start)); cbn [length]; rewrite IH; reflexivity.
Qed.

Lemma bits_set_succ (v : Z) (w : nat) :
  bits_set (S w) v = Z.b2z (Z.testbit v 0) + bits_set w (v / 2).
Proof.
  unfold bits_set. cbn [seq map filter]. change (Z.of_nat 0) with 0.
  destruct (Z.testbit v 0); cbn [length Z.b2z]; rewrite bits_from_shift; lia.
Qed.

Lemma bits_set_bound (v : Z) (w : nat) : 0 <= bits_set w v <= Z.of_nat w.
Proof.
  unfold bits_set. split; [lia |]. apply Nat2Z.inj_le.
  etransitivity; [apply filter_length_le |].
  rewrite length_map, length_seq. reflexivity.
Qed.

Lemma bits_set_zero (w : nat) : bits_set w 0 = 0.
Proof.
  induction w as [| w IH]; [reflexivity |].
  rewrite bits_set_succ, Z.bits_0. exact IH.
Qed.

(** Halving [v & (v - 1)]. *)
Lemma clear_lowest_halves (v : Z) :
  Z.testbit (Z.land v (v - 1)) 0 = false
  /\ Z.land v (v - 1) / 2
     = if Z.testbit v 0 then v / 2 else Z.land (v / 2) (v / 2 - 1).
Proof.
  pose proof (Z.bit0_mod v) as Hv. pose proof (Z.bit0_mod (v - 1)) as Hv1.
  split.
  - rewrite Z.land_spec.
    destruct (Z.testbit v 0), (Z.testbit (v - 1) 0); cbn [Z.b2z andb] in *;
      try reflexivity.
    exfalso. Z.div_mod_to_equations. lia.
  - apply Z.bits_inj'. intros j Hj.
    rewrite Z.div2_bits, Z.land_spec, <- !Z.div2_bits by assumption.
    destruct (Z.testbit v 0); cbn [Z.b2z] in Hv.
    + replace ((v - 1) / 2) with (v / 2) by (Z.div_mod_to_equations; lia).
      apply andb_diag.
    + rewrite Z.land_spec.
      replace ((v - 1) / 2) with (v / 2 - 1) by (Z.div_mod_to_equations; lia).
      reflexivity.
Qed.

(** One pass of the loop body removes exactly one set bit. *)
Lemma clear_lowest_bits_set (w : nat) (v : Z) :
  0 < v < 2 ^ Z.of_nat w ->
  bits_set w (Z.land v (v - 1)) = bits_set w v - 1.
Proof.
  revert v. induction w as [| w IH]; intros v Hv.
  - cbn in Hv. lia.
  - rewrite !bits_set_succ.
    destruct (clear_lowest_halves v) as [E0 Ehalf]. rewrite E0, Ehalf.
    pose proof (Z.bit0_mod v) as Hb.
    rewrite Nat2Z.inj_succ, Z.pow_succ_r in Hv by apply Nat2Z.is_nonneg.
    destruct (Z.testbit v 0); cbn [Z.b2z] in *.
    + lia.
    + rewrite IH; [lia |]. Z.div_mod_to_equations. lia.
Qed.

Lemma clear_lowest_is_uint (v : Z) : is_uint v -> is_uint (Z.land v (v - 1)).
Proof.
  intros Hv. apply is_uint_from_bits. intros k Hk.
  rewrite Z.land_spec, (is_uint_high_bits v k Hv) by assumption. reflexivity.
Qed.

(** The loop returns the count once the fuel exceeds it, and runs out of
    fuel otherwise: the body runs once per set bit. *)
Lemma COUNTBITS_loop_run (fuel : nat) (v num : Z) :
  is_uint v -> 0 <= num -> num + bits_set 32 v <= UINT_MAX ->
  Macros.COUNTBITS_loop fuel v num
  = if bits_set 32 v <? Z.of_nat fuel then Some (num + bits_set 32 v) else None.
Proof.
  revert v num. induction fuel as [| fuel IH]; intros v num Hv Hnum Hsum.
  - cbn [Macros.COUNTBITS_loop]. pose proof (bits_set_bound v 32).
    destruct (Z.ltb_spec (bits_set 32 v) (Z.of_nat 0)); [lia | reflexivity].
  - cbn [Macros.COUNTBITS_loop]. destruct (Z.eqb_spec v 0) as [-> | Hne]; cbn [negb].
    + rewrite bits_set_zero.
      destruct (Z.ltb_spec 0 (Z.of_nat (S fuel))); [f_equal; lia | lia].
    + assert (Hpos : 0 < v < 2 ^ Z.of_nat 32)
        by (unfold is_uint, UINT_MAX in Hv; change (2 ^ Z.of_nat 32) with 4294967296; lia).
      pose proof (clear_lowest_bits_set 32 v Hpos) as Hstep.
      pose proof (bits_set_bound (Z.land v (v - 1)) 32) as Hb.
      assert (E1 : uint_sub v 1 = v - 1)
        by (apply to_uint_small; unfold is_uint, UINT_MAX in *; lia).
      assert (E2 : uint_add num 1 = num + 1)
        by (apply to_uint_small; unfold is_uint, UINT_MAX in *; lia).
      rewrite E1, E2, IH; [| apply clear_lowest_is_uint; assumption | lia | lia].
      rewrite Hstep.
      destruct (Z.ltb_spec (bits_set 32 v - 1) (Z.of_nat fuel));
        destruct (Z.ltb_spec (bits_set 32 v) (Z.of_nat (S fuel)));
        try lia; try reflexivity. f_equal. lia.
Qed.

End CountBitsFacts.

(** X22. [COUNTBITS] on a 32-bit value returns the number of its set bits,
    and its loop body runs exactly once per set bit: the loop ends within
    [fuel] tests of its condition exactly when [fuel] exceeds that number,
    so 33 always suffice. *)
Theorem COUNTBITS_counts_set_bits (fuel : nat) (value : Z) :
  Macros.COUNTBITS fuel value
  = (if bits_set 32 (to_uint value) <? Z.of_nat fuel
     then Some (bits_set 32 (to_uint value)) else None)
  /\ ((33 <= fuel)%nat ->
      Macros.COUNTBITS fuel value = Some (bits_set 32 (to_uint value))).
Proof.
  pose proof (bits_set_bound (to_uint value) 32) as Hb.
  assert (E : Macros.COUNTBITS fuel value
              = if bits_set 32 (to_uint value) <? Z.of_nat fuel
                then Some (bits_set 32 (to_uint value)) else None).
  { unfold Macros.COUNTBITS.
    rewrite COUNTBITS_loop_run;
      [reflexivity | apply to_uint_range | lia | unfold UINT_MAX; lia]. }
  split; [exact E |]. intros Hfuel. rewrite E.
  destruct (Z.ltb_spec (bits_set 32 (to_uint value)) (Z.of_nat fuel)); [reflexivity | lia].
Qed.

Lemma COUNTBITS_counts_set_bits_witness :
  (33 <= 33)%nat /\ Macros.COUNTBITS 33 240 = Some (bits_set 32 (to_uint 240)).
Proof.
  split; [apply le_n |].
  apply (COUNTBITS_counts_set_bits 33 240). apply le_n.
Defined.

Example COUNTBITS_sample :
  Macros.COUNTBITS 33 240 = Some 4 /\ Macros.COUNTBITS 5 240 = Some 4
  /\ Macros.COUNTBITS 4 240 = None /\ Macros.COUNTBITS 1 0 = Some 0.
Proof. repeat split. Qed.

(** ** First set bit of a 2 x 6-bit value *)

Section FirstBitFacts.

Lemma below_pow2_from_bits (v n : Z) :
  0 <= n -> (forall k : Z, n <= k -> Z.testbit v k = false) -> 0 <= v < 2 ^ n.
Proof.
  intros Hn H. assert (E : v = v mod 2 ^ n).
  { apply Z.bits_inj'. intros k Hk. destruct (Z.lt_ge_cases k n).
    - rewrite Z.mod_pow2_bits_low by assumption. reflexivity.
    - rewrite Z.mod_pow2_bits_high by lia. apply H. assumption. }
  rewrite E. apply Z.mod_pos_bound. apply Z.pow_pos_nonneg; lia.
Qed.

(** [v & (v - 1)] is [v] without its lowest set bit. *)
Lemma clear_lowest_bit (n : nat) :
  forall v : Z, lowest_set_bit v (Z.of_nat n) ->
  forall j : Z, 0 <= j ->
    Z.testbit (Z.land v (v - 1)) j = Z.testbit v j && negb (j =? Z.of_nat n).
Proof.
  induction n as [| n IH]; intros v (_ & Hset & Hlow) j Hj;
    destruct (clear_lowest_halves v) as [E0 Ehalf].
  - change (Z.of_nat 0) with 0 in *. rewrite Hset in Ehalf.
    destruct (Z.eqb_spec j 0) as [-> | Hne].
    + rewrite E0, andb_false_r. reflexivity.
    + replace j with (Z.succ (j - 1)) by lia.
      rewrite <- !Z.div2_bits, Ehalf by lia. rewrite andb_true_r. reflexivity.
  - rewrite Nat2Z.inj_succ in *.
    assert (Hv0 : Z.testbit v 0 = false) by (apply Hlow; lia).
    rewrite Hv0 in Ehalf.
    destruct (Z.eqb_spec j 0) as [-> | Hne].
    + rewrite E0, Hv0. reflexivity.
    + replace j with (Z.succ (j - 1)) by lia.
      rewrite <- !Z.div2_bits, Ehalf by lia.
      rewrite IH; [| | lia].
      * f_equal. f_equal.
        destruct (Z.eqb_spec (j - 1) (Z.of_nat n));
          destruct (Z.eqb_spec (Z.succ (j - 1)) (Z.succ (Z.of_nat n)));
          try reflexivity; lia.
      * split; [lia |]. split.
        -- rewrite Z.div2_bits by lia. exact Hset.
        -- intros i Hi. rewrite Z.div2_bits by lia. apply Hlow. lia.
Qed.

Lemma lowest_set_bit_below (v n k : Z) :
  0 <= v < 2 ^ n -> 0 <= n -> lowest_set_bit v k -> 0 <= k < n.
Proof.
  intros Hv Hn (Hk & Hset & _). split; [exact Hk |].
  destruct (Z.lt_ge_cases k n) as [Hlt | Hge]; [exact Hlt |].
  rewrite (below_pow2_high_bits v n k) in Hset by lia. discriminate Hset.
Qed.

(** The bits of the mask [0x3F3F]. *)
Lemma mask_3F3F_bits (j : Z) :
  0 <= j -> Z.testbit 16191 j = (j <? 6) || ((8 <=? j) && (j <? 14)).
Proof.
  intros Hj. change 16191 with (Z.lor (Z.ones 6) (Z.shiftl (Z.ones 6) 8)).
  rewrite Z.lor_spec, Z.testbit_ones_nonneg, window_mask_bits by lia.
  reflexivity.
Qed.

Lemma mask_3F00_bits (j : Z) :
  0 <= j -> Z.testbit 16128 j = (8 <=? j) && (j <? 14).
Proof.
  intros Hj. change 16128 with (Z.shiftl (Z.ones 6) 8).
  rewrite window_mask_bits by lia. reflexivity.
Qed.

Variable value : Z.
Hypothesis value_in_mask : Z.land value 16191 = value.

Lemma masked_bits (j : Z) :
  0 <= j -> Z.testbit value j = true -> j < 6 \/ 8 <= j < 14.
Proof.
  intros Hj Hb. rewrite <- value_in_mask, Z.land_spec, mask_3F3F_bits in Hb by assumption.
  apply andb_true_iff in Hb. destruct Hb as [_ Hb].
  apply orb_true_iff in Hb. destruct Hb as [Hb | Hb].
  - left. apply Z.ltb_lt. exact Hb.
  - right. apply andb_true_iff in Hb. destruct Hb as [H1 H2].
    apply Z.leb_le in H1. apply Z.ltb_lt in H2. lia.
Qed.

Lemma masked_bit_false (j : Z) :
  0 <= j -> (6 <= j < 8 \/ 14 <= j) -> Z.testbit value j = false.
Proof.
  intros Hj Hr. destruct (Z.testbit value j) eqn:E; [| reflexivity].
  apply masked_bits in E; [lia | assumption].
Qed.

Lemma masked_is_uint : is_uint value /\ 0 <= value < 2 ^ 14.
Proof.
  assert (H : 0 <= value < 2 ^ 14).
  { apply below_pow2_from_bits; [lia |]. intros k Hk.
    apply masked_bit_false; lia. }
  split; [| exact H]. unfold is_uint, UINT_MAX. cbn in H. lia.
Qed.

(** The three fields the functions read with [GB]. *)
Lemma masked_fields :
  Macros.GB value 0 8 = Some (value mod 2 ^ 8)
  /\ Macros.GB value 0 6 = Some (value mod 2 ^ 6)
  /\ Macros.GB value 8 6 = Some ((value / 2 ^ 8) mod 2 ^ 6).
Proof.
  destruct masked_is_uint as [Hu _].
  rewrite !GB_run by (assumption || lia).
  change (2 ^ 0) with 1. rewrite Z.div_1_r. repeat split.
Qed.

Lemma low8_is_low6 : value mod 2 ^ 8 = value mod 2 ^ 6.
Proof.
  apply Z.bits_inj'. intros j Hj.
  destruct (Z.lt_ge_cases j 6); [| destruct (Z.lt_ge_cases j 8)].
  - rewrite !Z.mod_pow2_bits_low by lia. reflexivity.
  - rewrite Z.mod_pow2_bits_low, Z.mod_pow2_bits_high by lia.
    apply masked_bit_false; lia.
  - rewrite !Z.mod_pow2_bits_high by lia. reflexivity.
Qed.

Lemma low8_zero_value :
  value mod 2 ^ 8 = 0 -> value = (value / 2 ^ 8) mod 2 ^ 6 * 2 ^ 8.
Proof.
  intros H0. apply Z.bits_inj'. intros j Hj.
  rewrite Z.mul_pow2_bits by lia.
  destruct (Z.lt_ge_cases j 8).
  - rewrite (Z.testbit_neg_r _ (j - 8)) by lia.
    rewrite <- (Z.mod_pow2_bits_low value 8 j), H0 by assumption. apply Z.bits_0.
  - rewrite window_value_bits by lia. replace (j - 8 + 8) with j by lia.
    destruct (Z.ltb_spec (j - 8) 6); [reflexivity |].
    apply masked_bit_false; lia.
Qed.

End FirstBitFacts.

Section FirstBitLookup.

Lemma clear_lowest_bit_at (v k : Z) :
  lowest_set_bit v k ->
  forall j : Z, 0 <= j ->
    Z.testbit (Z.land v (v - 1)) j = Z.testbit v j && negb (j =? k).
Proof.
  intros H j Hj. assert (Hk : 0 <= k) by apply H.
  rewrite <- (Z2Nat.id k Hk) in H |- *. apply clear_lowest_bit; assumption.
Qed.

Variable value : Z.
Hypothesis value_in_mask : Z.land value 16191 = value.

Lemma lowest_bit_of_high_field (k : Z) :
  value mod 2 ^ 8 = 0 ->
  lowest_set_bit ((value / 2 ^ 8) mod 2 ^ 6) k ->
  lowest_set_bit value (k + 8).
Proof.
  intros H0 (Hk & Hset & Hlow).
  assert (Hv : forall j : Z, 0 <= j ->
             Z.testbit value j = Z.testbit ((value / 2 ^ 8) mod 2 ^ 6) (j - 8)).
  { intros j Hj.
    transitivity (Z.testbit ((value / 2 ^ 8) mod 2 ^ 6 * 2 ^ 8) j).
    - f_equal. apply low8_zero_value; assumption.
    - apply Z.mul_pow2_bits. lia. }
  split; [lia |]. split.
  - rewrite Hv by lia. replace (k + 8 - 8) with k by lia. exact Hset.
  - intros j Hj. rewrite Hv by lia.
    destruct (Z.lt_ge_cases j 8); [apply Z.testbit_neg_r; lia | apply Hlow; lia].
Qed.

Lemma lowest_bit_of_low_field (k : Z) :
  lowest_set_bit (value mod 2 ^ 6) k -> lowest_set_bit value k.
Proof.
  intros H.
  assert (Hk6 : 0 <= k < 6).
  { apply (lowest_set_bit_below (value mod 2 ^ 6) 6); [| lia | exact H].
    apply Z.mod_pos_bound. lia. }
  destruct H as (Hk & Hset & Hlow).
  split; [exact Hk |]. split.
  - rewrite <- (Z.mod_pow2_bits_low value 6 k) by lia. exact Hset.
  - intros j Hj. rewrite <- (Z.mod_pow2_bits_low value 6 j) by lia.
    apply Hlow. exact Hj.
Qed.

Lemma high_field_range :
  0 <= (value / 2 ^ 8) mod 2 ^ 6 < 64.
Proof. apply (Z.mod_pos_bound (value / 2 ^ 8) (2 ^ 6)). lia. Qed.

Lemma low_field_range : 0 <= value mod 2 ^ 6 < 64.
Proof. apply (Z.mod_pos_bound value (2 ^ 6)). lia. Qed.

End FirstBitLookup.

(** X23. With a table as the header documents it, and a non-zero value
    whose set bits all lie in the mask [0x3F3F], [FindFirstBit2x64]
    returns the position of the lowest set bit of the value. *)
Theorem FindFirstBit2x64_finds_lowest_set_bit (ffb : Z -> Z) (value : Z) :
  ffb_table_ok ffb -> Z.land value 16191 = value -> value <> 0 ->
  exists k : Z,
    Macros.FindFirstBit2x64 ffb value = Some k /\ lowest_set_bit value k.
Proof.
  intros (_ & Hfind & _) Hmask Hne.
  destruct (masked_fields value Hmask) as (E8 & E6 & Eh).
  unfold Macros.FindFirstBit2x64, Macros.FIND_FIRST_BIT.
  rewrite E8. cbn [Macros.obind].
  destruct (Z.eqb_spec (value mod 2 ^ 8) 0) as [H0 | H0].
  - rewrite Eh. cbn [Macros.obind].
    pose proof (high_field_range value) as Hr.
    assert (Hh : (value / 2 ^ 8) mod 2 ^ 6 <> 0).
    { intros Hz. apply Hne. rewrite (low8_zero_value value Hmask H0), Hz.
      reflexivity. }
    pose proof (Hfind ((value / 2 ^ 8) mod 2 ^ 6) ltac:(lia)) as Hlow.
    assert (Hk : 0 <= ffb ((value / 2 ^ 8) mod 2 ^ 6) < 6).
    { apply (lowest_set_bit_below ((value / 2 ^ 8) mod 2 ^ 6) 6);
        [change (2 ^ 6) with 64 in *; lia | lia | exact Hlow]. }
    eexists. split; [reflexivity |].
    unfold int_add. rewrite to_int_small by (unfold is_int, INT_MIN, INT_MAX; lia).
    apply lowest_bit_of_high_field; assumption.
  - rewrite E6. cbn [Macros.obind].
    pose proof (low_field_range value) as Hr.
    rewrite (low8_is_low6 value Hmask) in H0.
    eexists. split; [reflexivity |].
    apply lowest_bit_of_low_field. apply Hfind. lia.
Qed.

(** X24. With such a table, [KillFirstBit2x64] on a value whose set bits
    all lie in the mask [0x3F3F] returns the value without its lowest set
    bit, [value & (value - 1)]; on 0 it returns 0. *)
Theorem KillFirstBit2x64_clears_lowest_set_bit (ffb : Z -> Z) (value : Z) :
  ffb_table_ok ffb -> Z.land value 16191 = value ->
  Macros.KillFirstBit2x64 ffb value = Some (Z.land value (value - 1)).
Proof.
  intros (_ & Hfind & Hkill) Hmask.
  destruct (masked_fields value Hmask) as (E8 & E6 & Eh).
  unfold Macros.KillFirstBit2x64, Macros.KILL_FIRST_BIT.
  rewrite E8. cbn [Macros.obind].
  destruct (Z.eqb_spec (value mod 2 ^ 8) 0) as [H0 | H0].
  - rewrite Eh. cbn [Macros.obind]. f_equal.
    pose proof (high_field_range value) as Hr.
    pose proof (low8_zero_value value Hmask H0) as Hv.
    set (h := (value / 2 ^ 8) mod 2 ^ 6) in *.
    rewrite Hkill by lia. rewrite Z.shiftl_mul_pow2 by lia.
    assert (Hb : 0 <= Z.land h (h - 1) < 2 ^ 6).
    { apply below_pow2_from_bits; [lia |]. intros j Hj.
      rewrite Z.land_spec, (below_pow2_high_bits h 6 j)
        by (change (2 ^ 6) with 64; lia). reflexivity. }
    rewrite to_int_small
      by (unfold is_int, INT_MIN, INT_MAX; change (2 ^ 6) with 64 in Hb;
          change (2 ^ 8) with 256; lia).
    destruct (Z.eq_dec h 0) as [Hz | Hnz].
    + rewrite Hv, Hz. reflexivity.
    + pose proof (Hfind h ltac:(lia)) as Hlow.
      pose proof (lowest_bit_of_high_field value Hmask (ffb h) H0 Hlow) as Hlowv.
      apply Z.bits_inj'. intros j Hj.
      rewrite Z.mul_pow2_bits by lia.
      rewrite (clear_lowest_bit_at value _ Hlowv) by assumption.
      destruct (Z.lt_ge_cases j 8).
      * rewrite Z.testbit_neg_r by lia.
        rewrite <- (Z.mod_pow2_bits_low value 8 j), H0, Z.bits_0 by assumption.
        reflexivity.
      * rewrite (clear_lowest_bit_at h _ Hlow) by lia.
        assert (Ej : Z.testbit value j = Z.testbit h (j - 8)).
        { transitivity (Z.testbit (h * 2 ^ 8) j).
          - f_equal. exact Hv.
          - apply Z.mul_pow2_bits. lia. }
        rewrite Ej. f_equal. f_equal.
        destruct (Z.eqb_spec (j - 8) (ffb h));
          destruct (Z.eqb_spec j (ffb h + 8)); try reflexivity; lia.
  - rewrite E6. cbn [Macros.obind]. f_equal.
    pose proof (low_field_range value) as Hr.
    pose proof H0 as H6. rewrite (low8_is_low6 value Hmask) in H6.
    set (l := value mod 2 ^ 6) in *.
    rewrite Hkill by lia.
    pose proof (Hfind l ltac:(lia)) as Hlow.
    pose proof (lowest_bit_of_low_field value (ffb l) Hlow) as Hlowv.
    assert (Hk : 0 <= ffb l < 6).
    { apply (lowest_set_bit_below l 6);
        [change (2 ^ 6) with 64; lia | lia | exact Hlow]. }
    apply Z.bits_inj'. intros j Hj.
    rewrite Z.land_spec, Z.lor_spec, mask_3F00_bits by assumption.
    rewrite (clear_lowest_bit_at l _ Hlow), (clear_lowest_bit_at value _ Hlowv)
      by assumption.
    destruct (Z.lt_ge_cases j 6) as [Hj6 | Hj6].
    + unfold l. rewrite Z.mod_pow2_bits_low by assumption.
      destruct (Z.leb_spec 8 j); [lia |]. cbn [andb]. rewrite orb_false_r.
      destruct (Z.testbit value j); reflexivity.
    + assert (El : Z.testbit l j = false)
        by (unfold l; apply Z.mod_pow2_bits_high; lia).
      rewrite El. cbn [andb orb].
      destruct (Z.eqb_spec j (ffb l)); [lia |]. cbn [negb]. rewrite andb_true_r.
      destruct (Z.leb_spec 8 j); destruct (Z.ltb_spec j 14); cbn [andb].
      * apply andb_true_r.
      * rewrite (masked_bit_false value Hmask j) by lia. reflexivity.
      * rewrite (masked_bit_false value Hmask j) by lia. reflexivity.
      * rewrite (masked_bit_false value Hmask j) by lia. reflexivity.
Qed.

(** The sample table is as the header documents it. *)
Lemma sample_ffb_table_ok : ffb_table_ok Sample.ffb.
Proof.
  split; [reflexivity |]. split.
  - intros x Hx. unfold Sample.ffb.
    destruct (Z.ltb_spec x 64); [| lia]. unfold Sample.first_bit.
    assert (Hhigh : forall j : Z, 6 <= j -> Z.testbit x j = false)
      by (intros j Hj; apply (below_pow2_high_bits x 6);
          [change (2 ^ 6) with 64; lia | lia]).
    assert (Hcase : forall j k : Z, 0 <= j < k -> k <= 6 ->
               j = 0 \/ j = 1 \/ j = 2 \/ j = 3 \/ j = 4 \/ j = 5) by (intros; lia).
    destruct (Z.testbit x 0) eqn:B0;
      [split; [lia |]; split; [exact B0 |]; intros j Hj; lia |].
    destruct (Z.testbit x 1) eqn:B1;
      [split; [lia |]; split; [exact B1 |]; intros j Hj;
       destruct (Hcase j 1 Hj ltac:(lia)) as [-> | Hr]; [exact B0 | lia] |].
    destruct (Z.testbit x 2) eqn:B2;
      [split; [lia |]; split; [exact B2 |]; intros j Hj;
       destruct (Hcase j 2 Hj ltac:(lia)) as [-> | [-> | Hr]];
       [exact B0 | exact B1 | lia] |].
    destruct (Z.testbit x 3) eqn:B3;
      [split; [lia |]; split; [exact B3 |]; intros j Hj;
       destruct (Hcase j 3 Hj ltac:(lia)) as [-> | [-> | [-> | Hr]]];
       [exact B0 | exact B1 | exact B2 | lia] |].
    destruct (Z.testbit x 4) eqn:B4;
      [split; [lia |]; split; [exact B4 |]; intros j Hj;
       destruct (Hcase j 4 Hj ltac:(lia)) as [-> | [-> | [-> | [-> | Hr]]]];
       [exact B0 | exact B1 | exact B2 | exact B3 | lia] |].
    destruct (Z.testbit x 5) eqn:B5;
      [split; [lia |]; split; [exact B5 |]; intros j Hj;
       destruct (Hcase j 5 Hj ltac:(lia)) as [-> | [-> | [-> | [-> | [-> | Hr]]]]];
       [exact B0 | exact B1 | exact B2 | exact B3 | exact B4 | lia] |].
    exfalso. assert (Hz : x = 0); [| lia].
    apply Z.bits_inj'. intros j Hj. rewrite Z.bits_0.
    destruct (Z.lt_ge_cases j 6) as [Hlt | Hge]; [| apply Hhigh; exact Hge].
    destruct (Hcase j 6 ltac:(lia) ltac:(lia))
      as [-> | [-> | [-> | [-> | [-> | ->]]]]]; assumption.
  - intros x Hx. unfold Sample.ffb.
    destruct (Z.ltb_spec (x + 64) 64); [lia |].
    replace (x + 64 - 64) with x by lia. reflexivity.
Qed.

Lemma FindFirstBit2x64_finds_lowest_set_bit_witness :
  ffb_table_ok Sample.ffb /\ Z.land 5120 16191 = 5120 /\ 5120 <> 0
  /\ exists k : Z,
       Macros.FindFirstBit2x64 Sample.ffb 5120 = Some k /\ lowest_set_bit 5120 k.
Proof.
  assert (Hm : Z.land 5120 16191 = 5120) by reflexivity.
  assert (Hne : 5120 <> 0) by discriminate.
  split; [exact sample_ffb_table_ok |]. split; [exact Hm |]. split; [exact Hne |].
  exact (FindFirstBit2x64_finds_lowest_set_bit Sample.ffb 5120
           sample_ffb_table_ok Hm Hne).
Defined.

Lemma KillFirstBit2x64_clears_lowest_set_bit_witness :
  ffb_table_ok Sample.ffb /\ Z.land 5140 16191 = 5140
  /\ Macros.KillFirstBit2x64 Sample.ffb 5140 = Some (Z.land 5140 (5140 - 1)).
Proof.
  assert (Hm : Z.land 5140 16191 = 5140) by reflexivity.
  split; [exact sample_ffb_table_ok |]. split; [exact Hm |].
  exact (KillFirstBit2x64_clears_lowest_set_bit Sample.ffb 5140
           sample_ffb_table_ok Hm).
Defined.

(** Outside the mask the functions err, as the header warns: with only
    bit 6 set the low byte is not zero, so the high field is never looked
    at, and the low six bits hold nothing to find. *)
Example FindFirstBit2x64_outside_mask :
  Macros.FindFirstBit2x64 Sample.ffb 64 = Some 0
  /\ Macros.FindFirstBit2x64 Sample.ffb 5120 = Some 10
  /\ Macros.KillFirstBit2x64 Sample.ffb 5140 = Some 5136.
Proof. repeat split. Qed.
